(** * Electroverse front end: the search-and-playback request flow

    A shallow embedding of the three React sources of the repository:

    - [frontend/src/Player.jsx]: the search form, [performSearch],
      [loadVideo] and the render function of [Player];
    - [frontend/src/App.jsx]: [InnerApp] and the exported [App];
    - the stand-alone video player ([playPause], [stopVideo]).

    JavaScript values are an inductive type, numbers are IEEE doubles
    (primitive floats), strings are byte strings holding the UTF-8 form of
    the text.  Handlers are written in a small state-and-exception monad
    over the component's world (React state, browser side effects). *)

From Stdlib Require Import String Ascii List Bool Arith NArith Lia.
From Stdlib Require Import Floats.PrimFloat.
Import ListNotations.
Local Open Scope string_scope.
Local Open Scope list_scope.
Set Warnings "-register-all".

(* ================================================================== *)
(** ** JavaScript values *)
(* ================================================================== *)

Module JS.

Definition number := float.

(** What [JSON.parse] can produce, plus [undefined] (the result of reading
    a property that is not there).  An object is its property list in
    insertion order; a read takes the first entry with the name. *)
Inductive value : Type :=
| VUndefined
| VNull
| VBool (b : bool)
| VNum (n : number)
| VStr (s : string)
| VArr (elems : list value)
| VObj (props : list (string * value)).

(** Exceptions and promise rejections the handlers can meet.  The handlers
    never look at the reason, so one constructor per origin is enough. *)
Inductive exn : Type :=
| TypeError        (* property read on null or undefined *)
| FetchRejected    (* apiFetch rejected: no response reached *)
| BodyRejected.    (* res.json(), res.text() or res.blob() rejected *)

(** ToBoolean: what [if (v)] and [v || w] test. *)
Definition ToBoolean (v : value) : bool :=
  match v with
  | VUndefined | VNull => false
  | VBool b => b
  | VNum n => (n =? n)%float && negb (n =? 0)%float
  | VStr s => match s with EmptyString => false | String _ _ => true end
  | VArr _ | VObj _ => true
  end.

Fixpoint lookup (k : string) (props : list (string * value)) : value :=
  match props with
  | [] => VUndefined
  | (k', v) :: rest => if String.eqb k' k then v else lookup k rest
  end.

(** [v.k] for a property name [k] that no built-in prototype defines and
    that is neither an index nor [length] (here: [message], [error],
    [video_id], ...).  Reading from [null] or [undefined] throws. *)
Definition Get (v : value) (k : string) : exn + value :=
  match v with
  | VUndefined | VNull => inl TypeError
  | VObj props => inr (lookup k props)
  | VBool _ | VNum _ | VStr _ | VArr _ => inr VUndefined
  end.

Definition isArray (v : value) : bool :=
  match v with VArr _ => true | _ => false end.

(** The elements of an array value (used only under [isArray]). *)
Definition elements (v : value) : list value :=
  match v with VArr l => l | _ => [] end.

End JS.
Import JS.

(* ================================================================== *)
(** ** URLSearchParams *)
(* ================================================================== *)

Module URLSearchParams.

(** The list of name-value pairs of a [URLSearchParams] object.  Names
    and values are texts without lone surrogates, in UTF-8 (for such
    texts the conversion [append] applies to its arguments changes
    nothing). *)
Definition t := list (string * string).

Definition new : t := [].

Definition append (p : t) (k v : string) : t := p ++ [(k, v)].

Definition hex_digit (n : N) : ascii :=
  match n with
  | 0 => "0" | 1 => "1" | 2 => "2" | 3 => "3" | 4 => "4" | 5 => "5"
  | 6 => "6" | 7 => "7" | 8 => "8" | 9 => "9" | 10 => "A" | 11 => "B"
  | 12 => "C" | 13 => "D" | 14 => "E" | _ => "F"
  end%N%char.

(** Bytes the application/x-www-form-urlencoded serializer leaves alone:
    ASCII alphanumerics and [*], [-], [.], [_]. *)
Definition unreserved (c : ascii) : bool :=
  let n := N_of_ascii c in
  ((48 <=? n) && (n <=? 57) || (65 <=? n) && (n <=? 90)
   || (97 <=? n) && (n <=? 122)
   || (n =? 42) || (n =? 45) || (n =? 46) || (n =? 95))%N.

Definition encode_byte (c : ascii) : string :=
  if unreserved c then String c ""
  else if (N_of_ascii c =? 32)%N then "+"
  else String "%" (String (hex_digit (N_of_ascii c / 16))
                     (String (hex_digit (N_of_ascii c mod 16)) "")).

Fixpoint encode (s : string) : string :=
  match s with
  | EmptyString => ""
  | String c rest => (encode_byte c ++ encode rest)%string
  end.

Definition pair_toString (kv : string * string) : string :=
  (encode (fst kv) ++ "=" ++ encode (snd kv))%string.

(** [params.toString()]: the pairs, in order, joined with [&]. *)
Fixpoint toString (p : t) : string :=
  match p with
  | [] => ""
  | [kv] => pair_toString kv
  | kv :: rest => (pair_toString kv ++ "&" ++ toString rest)%string
  end.

End URLSearchParams.

(* ================================================================== *)
(** ** A state-and-exception monad for event handlers *)
(* ================================================================== *)

Definition M (W A : Type) : Type := W -> (exn + A) * W.

Definition ret {W A} (a : A) : M W A := fun w => (inr a, w).

Definition bind {W A B} (c : M W A) (k : A -> M W B) : M W B :=
  fun w => match c w with
           | (inr a, w') => k a w'
           | (inl e, w') => (inl e, w')
           end.

Definition throw {W A} (e : exn) : M W A := fun w => (inl e, w).

(** [try { c } catch (err) { h err }] and [p.catch(h)]. *)
Definition try_catch {W A} (c : M W A) (h : exn -> M W A) : M W A :=
  fun w => match c w with
           | (inr a, w') => (inr a, w')
           | (inl e, w') => h e w'
           end.

(** A pure step that may throw. *)
Definition lift {W A} (r : exn + A) : M W A := fun w => (r, w).

(** Settling a promise: [None] is a rejection. *)
Definition await {W A} (p : option A) (reason : exn) : M W A :=
  match p with Some a => ret a | None => throw reason end.

Declare Scope js_scope.
Delimit Scope js_scope with js.
Notation "x <- c ;; k" := (bind c (fun x => k))
  (at level 100, c at next level, right associativity) : js_scope.
Notation "c ;; k" := (bind c (fun _ => k))
  (at level 100, right associativity) : js_scope.
Local Open Scope js_scope.

(** [a || b], with [b] evaluated only when [a] is falsy. *)
Definition or_else {W} (a : value) (b : M W value) : M W value :=
  if ToBoolean a then ret a else b.

(* ================================================================== *)
(** ** The fetch API, as far as the handlers use it *)
(* ================================================================== *)

Definition Blob := string.

(** A response that reached the client.  The body is read once, by one of
    [json()], [text()] or [blob()]; [None] is a rejected read ([json()]
    also rejects when the body is not JSON). *)
Record Response : Type := {
  ok   : bool;
  json : option value;
  text : option string;
  blob : option Blob
}.

(** [apiFetch] comes from [./api], which is outside the sources: it is
    taken as the network, a map from the requested URL to the settled
    promise ([None]: rejected, no response reached). *)
Definition Network := string -> option Response.

(* ================================================================== *)
(** ** Player.jsx: state, effects and the two asynchronous handlers *)
(* ================================================================== *)

Module Player.

(** [query]: the five string fields of the search form, in the order of
    the object literal of [useState].  Every update is
    [{ ...query, field: e.target.value }], which keeps that key order and
    stores the string value of a form control. *)
Record Query : Type := {
  date       : string;
  start_time : string;
  end_time   : string;
  camera_id  : string;
  plate      : string
}.

Definition initialQuery : Query :=
  {| date := ""; start_time := ""; end_time := ""; camera_id := "";
     plate := "" |}.

(** [Object.entries(query)]. *)
Definition Object_entries (q : Query) : list (string * string) :=
  [ ("date", date q); ("start_time", start_time q);
    ("end_time", end_time q); ("camera_id", camera_id q);
    ("plate", plate q) ].

Inductive field : Type :=
| Fdate | Fstart_time | Fend_time | Fcamera_id | Fplate.

(** [{ ...query, f: v }]. *)
Definition spread_with (q : Query) (f : field) (v : string) : Query :=
  match f with
  | Fdate       => {| date := v; start_time := start_time q;
                      end_time := end_time q; camera_id := camera_id q;
                      plate := plate q |}
  | Fstart_time => {| date := date q; start_time := v;
                      end_time := end_time q; camera_id := camera_id q;
                      plate := plate q |}
  | Fend_time   => {| date := date q; start_time := start_time q;
                      end_time := v; camera_id := camera_id q;
                      plate := plate q |}
  | Fcamera_id  => {| date := date q; start_time := start_time q;
                      end_time := end_time q; camera_id := v;
                      plate := plate q |}
  | Fplate      => {| date := date q; start_time := start_time q;
                      end_time := end_time q; camera_id := camera_id q;
                      plate := v |}
  end.

(** An object URL is the index of its blob in the browser's blob URL
    store; nothing in the sources revokes one. *)
Definition ObjectURL := nat.

(** The three [useState] slots.  [searchResults] only ever receives an
    array, so the slot holds the elements. *)
Record State : Type := {
  videoUrl      : option ObjectURL;
  searchResults : list value;
  query         : Query
}.

Definition initialState : State :=
  {| videoUrl := None; searchResults := []; query := initialQuery |}.

(** The callback handed to [setTimeout] by [loadVideo]:
    [() => videoRef.current && videoRef.current.play()]. *)
Inductive callback : Type := PlayIfMounted.

(** What a handler does to the outside, in program order. *)
Inductive effect : Type :=
| PreventDefault
| Request (url : string)
| Alert (reason : value)
| SetTimeout (cb : callback) (ms : nat).

Record World : Type := {
  state     : State;
  blobStore : list Blob;
  trace     : list effect
}.

Definition emit (e : effect) : M World unit :=
  fun w => (inr tt, {| state := state w; blobStore := blobStore w;
                       trace := trace w ++ [e] |}).

Definition alert (reason : value) : M World unit := emit (Alert reason).

Definition getQuery : M World Query := fun w => (inr (query (state w)), w).

Definition setSearchResults (l : list value) : M World unit :=
  fun w => (inr tt,
            {| state := {| videoUrl := videoUrl (state w);
                           searchResults := l;
                           query := query (state w) |};
               blobStore := blobStore w; trace := trace w |}).

Definition setVideoUrl (u : option ObjectURL) : M World unit :=
  fun w => (inr tt,
            {| state := {| videoUrl := u;
                           searchResults := searchResults (state w);
                           query := query (state w) |};
               blobStore := blobStore w; trace := trace w |}).

Definition setQuery (q : Query) : M World unit :=
  fun w => (inr tt,
            {| state := {| videoUrl := videoUrl (state w);
                           searchResults := searchResults (state w);
                           query := q |};
               blobStore := blobStore w; trace := trace w |}).

(** The [onChange] of a form control:
    [e => setQuery({ ...query, f: e.target.value })]. *)
Definition onChange (f : field) (target_value : string) : M World unit :=
  q <- getQuery ;; setQuery (spread_with q f target_value).

(** [URL.createObjectURL(blob)]. *)
Definition createObjectURL (b : Blob) : M World ObjectURL :=
  fun w => (inr (List.length (blobStore w)),
            {| state := state w; blobStore := blobStore w ++ [b];
               trace := trace w |}).

(** [await apiFetch(url)]. *)
Definition apiFetch (net : Network) (url : string) : M World Response :=
  emit (Request url) ;; await (net url) FetchRejected.

(** The submit event of the form; [performSearch] may also be called
    without one. *)
Inductive Event : Type := SubmitEvent.

(** Lines 16-17: [params] after the [forEach]. *)
Definition searchParams (q : Query) : URLSearchParams.t :=
  fold_left
    (fun params kv =>
       if ToBoolean (VStr (snd kv))
       then URLSearchParams.append params (fst kv) (snd kv)
       else params)
    (Object_entries q) URLSearchParams.new.

(** Line 20: the argument of [apiFetch]. *)
Definition searchUrl (q : Query) : string :=
  ("/search?" ++ URLSearchParams.toString (searchParams q))%string.

(** Lines 14-32.  The [return] of line 24 is the end of the first
    branch; the [catch] of line 29 covers every throw and rejection
    between lines 20 and 28. *)
Definition performSearch (net : Network) (e : option Event)
  : M World unit :=
  match e with Some _ => emit PreventDefault | None => ret tt end ;;
  q <- getQuery ;;
  try_catch
    (res <- apiFetch net (searchUrl q) ;;
     if negb (ok res) then
       err <- try_catch (await (json res) BodyRejected)
                        (fun _ => ret (VObj [])) ;;
       message <- lift (Get err "message") ;;
       reason <- or_else message
                   (error <- lift (Get err "error") ;;
                    or_else error (ret (VStr "Search failed"))) ;;
       alert reason
     else
       data <- await (json res) BodyRejected ;;
       setSearchResults (if isArray data then elements data else []))
    (fun _ => alert (VStr "Network error")).

(** [video_id] is the text the template literal puts into the path. *)
Definition videoPath (video_id : string) : string :=
  ("/video/decrypted/" ++ video_id)%string.

(** Lines 34-50. *)
Definition loadVideo (net : Network) (video_id : string) : M World unit :=
  try_catch
    (res <- apiFetch net (videoPath video_id) ;;
     if negb (ok res) then
       txt <- await (text res) BodyRejected ;;
       reason <- or_else (VStr txt) (ret (VStr "Failed to load video")) ;;
       alert reason
     else
       b <- await (blob res) BodyRejected ;;
       url <- createObjectURL b ;;
       setVideoUrl (Some url) ;;
       emit (SetTimeout PlayIfMounted 100))
    (fun _ => alert (VStr "Network error")).

End Player.

(* ================================================================== *)
(** ** What the components render *)
(* ================================================================== *)

Module UI.
Import Player.

(** The identity read with [useContext(AuthContext)].  [AuthContext.jsx]
    is outside the sources; the value is taken as given. *)
Record AuthIdentity : Type := {
  isAuthenticated : bool;
  user            : option string   (* user?.username *)
}.

(** The functions an element can call when the user acts on it. *)
Inductive handler : Type :=
| performSearch_h
| setQuery_h (f : field)
| loadVideo_h (video_id : value)
| logout_h
| signIn_handleSubmit
| signIn_handleChange (f : string)
| signIn_onSwitch.

(** Rendered trees: text, embedded values, the media element and any
    other element with its attributes (styles left out), its event
    handlers and its children. *)
Inductive node : Type :=
| Text (s : string)
| Expr (v : value)
| Video (src : ObjectURL)
| Elem (tag : string) (attrs : list (string * string))
       (on : list handler) (children : list node).

Definition class (c : string) : list (string * string) :=
  [("className", c)].

Fixpoint mapM {A B} (f : A -> exn + B) (l : list A) : exn + list B :=
  match l with
  | [] => inr []
  | a :: rest =>
      match f a with
      | inl e => inl e
      | inr b => match mapM f rest with
                 | inl e => inl e
                 | inr bs => inr (b :: bs)
                 end
      end
  end.

(** Player.jsx line 53. *)
Definition signInNotice : node :=
  Elem "div" [] [] [Text "Please sign in to view videos."].

Definition inputGroup (label : string) (control : node) : node :=
  Elem "div" (class "input-group") []
       [Elem "label" [] [] [Text label]; control].

Definition input (attrs : list (string * string)) (f : field)
  (v : string) : node :=
  Elem "input" (attrs ++ [("value", v)]) [setQuery_h f] [].

Definition cameraOption (v label : string) : node :=
  Elem "option" [("value", v)] [] [Text label].

(** Lines 127-134: one entry of the result list.  Reading a property of
    [r] throws when [r] is [null]. *)
Definition resultItem (r : value) : exn + node :=
  match Get r "video_id", Get r "filename",
        Get r "upload_date_ist", Get r "camera_id" with
  | inr video_id, inr filename, inr upload_date_ist, inr camera =>
      inr (Elem "li" [] []
             [ Elem "strong" [] [] [Expr filename]; Elem "br" [] [] [];
               Expr upload_date_ist; Text " â€” "; Expr camera;
               Elem "br" [] [] [];
               Elem "button" [] [loadVideo_h video_id] [Text "Load"] ])
  | _, _, _, _ => inl TypeError
  end.

(** The render function of [Player] (lines 52-152). *)
Definition Player (ctx : AuthIdentity) (st : State) : exn + node :=
  if negb (isAuthenticated ctx) then inr signInNotice
  else
    match mapM resultItem (searchResults st) with
    | inl e => inl e
    | inr items =>
      let q := query st in
      inr (Elem "div" (class "app-container") []
        [ Elem "h1" [] [] [Text "Secure Video Viewer"];
          Elem "form" (class "search-card") [performSearch_h]
            [ inputGroup "Date" (input [("type", "date")] Fdate (date q));
              inputGroup "Start Time"
                (input [("type", "time"); ("step", "1")]
                       Fstart_time (start_time q));
              inputGroup "End Time"
                (input [("type", "time"); ("step", "1")]
                       Fend_time (end_time q));
              inputGroup "Camera"
                (Elem "select" [("value", camera_id q)]
                   [setQuery_h Fcamera_id]
                   [ cameraOption "" "Select Camera";
                     cameraOption "1" "Camera 1";
                     cameraOption "2" "Camera 2";
                     cameraOption "3" "Camera 3" ]);
              inputGroup "Plate"
                (input [("type", "text"); ("placeholder", "Enter plate")]
                       Fplate (plate q));
              Elem "button" [("className", "search-btn"); ("type", "submit")]
                   [] [Text "Search"] ];
          Elem "div" (class "content-section") []
            [ Elem "div" (class "results-card") []
                ([Elem "h3" [] [] [Text "Results"]]
                 ++ (if Nat.eqb (List.length (searchResults st)) 0
                     then [Elem "div" [] [] [Text "No results"]] else [])
                 ++ [Elem "ul" [] [] items]);
              Elem "div" (class "player-card") []
                [ Elem "h3" [] [] [Text "Player"];
                  match videoUrl st with
                  | Some url => Video url
                  | None => Elem "div" (class "video-placeholder") []
                                 [Text "No video loaded"]
                  end ] ] ])
    end.

(** The form state of [SignInCard]. *)
Record FormData : Type := { email : string; password : string }.

(** [SignInCard]; [TextInput] and [Button] are components outside the
    sources and stay leaves. *)
Definition SignInCard (onSwitch : bool) (formData : FormData) : node :=
  Elem "div" [] []
    [ Elem "div" [] []
        [ Elem "h2" [] [] [Text "Welcome Back"];
          Elem "p" [] []
            [Text "Enter your credentials to access business opportunities."] ];
      Elem "form" [] [signIn_handleSubmit]
        [ Elem "TextInput"
               [("label", "Email Address"); ("type", "email");
                ("placeholder", "name@company.com");
                ("value", email formData)]
               [signIn_handleChange "email"] [];
          Elem "TextInput"
               [("label", "Password"); ("type", "password");
                ("placeholder", "Enter your password");
                ("value", password formData)]
               [signIn_handleChange "password"] [];
          Elem "div" [] []
               [Elem "a" [("href", "#")] [] [Text "Forgot password?"]];
          Elem "Button" [("label", "Sign In"); ("type", "submit")] [] [] ];
      Elem "div" [] []
        [ Elem "span" [] [] [Text "Don't have an account? "];
          Elem "button" [] (if onSwitch then [signIn_onSwitch] else [])
               [Text "Create an account"] ] ].

(** App.jsx, [InnerApp] (lines 8-30); [<SignInCard />] gets no
    [onSwitch]. *)
Definition InnerApp (ctx : AuthIdentity) (st : State) (fd : FormData)
  : exn + node :=
  match (if negb (isAuthenticated ctx)
         then inr (SignInCard false fd) else Player ctx st) with
  | inl e => inl e
  | inr main =>
      inr (Elem "div" [] []
        [ Elem "header" [] []
            [ Elem "div" [] [] [Text "Electroverse"];
              Elem "nav" [] []
                (if isAuthenticated ctx
                 then [ Elem "span" [] []
                          [Text "Hi ";
                           Expr (match user ctx with
                                 | Some name => VStr name
                                 | None => VUndefined
                                 end)];
                        Elem "button" [] [logout_h] [Text "Sign out"] ]
                 else []) ];
          Elem "main" [] [] [main] ])
  end.

(** App.jsx, [App] (lines 32-36): the exported root renders [Player]
    directly. *)
Definition App (ctx : AuthIdentity) (st : State) : exn + node :=
  Player ctx st.

(** *** Observations on a rendered tree *)

(** The handlers a user can trigger. *)
Fixpoint handlers_of (n : node) : list handler :=
  match n with
  | Elem _ _ on children => on ++ flat_map handlers_of children
  | Text _ | Expr _ | Video _ => []
  end.

Fixpoint classNames_of (n : node) : list string :=
  match n with
  | Elem _ attrs _ children =>
      map snd (filter (fun a => String.eqb (fst a) "className") attrs)
      ++ flat_map classNames_of children
  | Text _ | Expr _ | Video _ => []
  end.

Fixpoint videos_of (n : node) : list ObjectURL :=
  match n with
  | Video src => [src]
  | Elem _ _ _ children => flat_map videos_of children
  | Text _ | Expr _ => []
  end.

(** The handlers of the search form, the result list and the player. *)
Definition playerHandler (h : handler) : bool :=
  match h with
  | performSearch_h | setQuery_h _ | loadVideo_h _ => true
  | _ => false
  end.

Definition signInHandler (h : handler) : bool :=
  match h with
  | signIn_handleSubmit | signIn_handleChange _ | signIn_onSwitch => true
  | _ => false
  end.

(** The class names of the search/player surface of Player.jsx. *)
Definition surfaceClass (c : string) : bool :=
  existsb (String.eqb c)
    ["app-container"; "search-card"; "results-card"; "player-card";
     "content-section"; "input-group"; "search-btn"; "video-placeholder"].

(** A tree shows the search/player surface when it has one of its
    handlers, one of its containers or a media element. *)
Definition showsSurface (n : node) : bool :=
  existsb playerHandler (handlers_of n)
  || existsb surfaceClass (classNames_of n)
  || negb (Nat.eqb (List.length (videos_of n)) 0).

End UI.

(* ================================================================== *)
(** ** The stand-alone video player: playPause and stopVideo *)
(* ================================================================== *)

Module VideoPlayer.

(** The part of an [HTMLVideoElement] the handlers touch.  [src] is the
    bound source, if any; the component binds ["/video.mp4"]. *)
Record HTMLVideoElement : Type := {
  src         : option string;
  paused      : bool;
  currentTime : number
}.

(** Calls and assignments that reach the media element. *)
Inductive command : Type :=
| play
| pause
| set_currentTime (t : number).

(** [videoRef.current] ([null] until the element is mounted) and the
    commands issued so far. *)
Record World : Type := {
  videoRef : option HTMLVideoElement;
  issued   : list command
}.


(** Member access on [videoRef.current]: a [TypeError] on [null].  The
    element answers [play()] by leaving the paused state, [pause()] by
    entering it, and an assignment to [currentTime] by seeking there. *)
Definition on_video {A} (c : list command)
  (f : HTMLVideoElement -> HTMLVideoElement * A) : M World A :=
  fun w =>
    match videoRef w with
    | None => (inl TypeError, w)
    | Some v => (inr (snd (f v)),
                 {| videoRef := Some (fst (f v));
                    issued := issued w ++ c |})
    end.

Definition video_paused : M World bool :=
  on_video [] (fun v => (v, paused v)).

Definition video_play : M World unit :=
  on_video [play]
    (fun v => ({| src := src v; paused := false;
                  currentTime := currentTime v |}, tt)).

Definition video_pause : M World unit :=
  on_video [pause]
    (fun v => ({| src := src v; paused := true;
                  currentTime := currentTime v |}, tt)).

Definition video_set_currentTime (t : number) : M World unit :=
  on_video [set_currentTime t]
    (fun v => ({| src := src v; paused := paused v; currentTime := t |},
               tt)).

(** Lines 6-13. *)
Definition playPause : M World unit :=
  p <- video_paused ;;
  if p then video_play else video_pause.

(** Lines 15-19. *)
Definition stopVideo : M World unit :=
  video_pause ;; video_set_currentTime 0%float.

End VideoPlayer.

(* ================================================================== *)
(** ** Vocabulary of the specification *)
(* ================================================================== *)

(** How the receiving side reads a query string back (URL standard,
    application/x-www-form-urlencoded parsing).  It is what "the query
    string contains a field" means below. *)
Module QueryString.

Definition hex_value (c : ascii) : option N :=
  let n := N_of_ascii c in
  if ((48 <=? n) && (n <=? 57))%N then Some (n - 48)%N
  else if ((65 <=? n) && (n <=? 70))%N then Some (n - 55)%N
  else if ((97 <=? n) && (n <=? 102))%N then Some (n - 87)%N
  else None.

(** [+] reads as a space, [%XY] as the byte with that code. *)
Fixpoint decode (s : string) : string :=
  match s with
  | EmptyString => ""
  | String c r =>
      if (N_of_ascii c =? 37)%N then
        match r with
        | String h (String l rest) =>
            match hex_value h, hex_value l with
            | Some a, Some b =>
                String (ascii_of_N (16 * a + b)) (decode rest)
            | _, _ => String c (decode r)
            end
        | _ => String c (decode r)
        end
      else if (N_of_ascii c =? 43)%N then String " " (decode r)
      else String c (decode r)
  end.

(** The pieces of [s] between occurrences of [sep]. *)
Fixpoint split (sep : ascii) (s : string) : list string :=
  match s with
  | EmptyString => [""]
  | String c r =>
      if Ascii.eqb c sep then "" :: split sep r
      else match split sep r with
           | piece :: pieces => String c piece :: pieces
           | [] => [String c ""]
           end
  end.

(** Name and value of one piece: cut at the first [=]. *)
Fixpoint cut (s : string) : string * string :=
  match s with
  | EmptyString => ("", "")
  | String c r =>
      if Ascii.eqb c "=" then ("", r)
      else (String c (fst (cut r)), snd (cut r))
  end.

(** [lacks c s]: the byte [c] does not occur in [s]. *)
Fixpoint lacks (c : ascii) (s : string) : bool :=
  match s with
  | EmptyString => true
  | String d r => negb (Ascii.eqb d c) && lacks c r
  end.

Definition parse (s : string) : list (string * string) :=
  flat_map
    (fun piece =>
       match piece with
       | EmptyString => []
       | String _ _ => [(decode (fst (cut piece)), decode (snd (cut piece)))]
       end)
    (split "&" s).

End QueryString.

(** The two asynchronous operations of the request flow, seen as one
    family, with the words the specification uses about a run. *)
Module Flow.
Import Player.

Inductive operation : Type :=
| Search (e : option Event)
| Load (video_id : string).

Definition run (net : Network) (op : operation) : M World unit :=
  match op with
  | Search e => performSearch net e
  | Load video_id => loadVideo net video_id
  end.

(** The URL the operation asks for when started in [w]. *)
Definition requestUrl (op : operation) (w : World) : string :=
  match op with
  | Search _ => searchUrl (query (state w))
  | Load video_id => videoPath video_id
  end.

(** What the operation does before the answer is known. *)
Definition prelude (op : operation) (w : World) : list effect :=
  match op with
  | Search (Some _) => [PreventDefault; Request (requestUrl op w)]
  | _ => [Request (requestUrl op w)]
  end.

(** [w] with more effects in its trace and nothing else touched. *)
Definition logged (w : World) (es : list effect) : World :=
  {| state := state w; blobStore := blobStore w;
     trace := trace w ++ es |}.

(** Success is confirmed when a response arrived, its status is a
    success status and its body could be read. *)
Definition succeeded (net : Network) (op : operation) (w : World) : bool :=
  match net (requestUrl op w) with
  | None => false
  | Some res =>
      ok res && match op with
                | Search _ => match json res with Some _ => true
                                                | None => false end
                | Load _ => match blob res with Some _ => true
                                              | None => false end
                end
  end.

(** The value of [err] on line 22, [res.json().catch(() => ({}))]:
    the parsed body, or the empty object when the read rejects. *)
Definition errorPayload (res : Response) : value :=
  match json res with Some v => v | None => VObj [] end.

(** The failure reasons a trace shows to the user. *)
Definition alerts (tr : list effect) : list value :=
  flat_map (fun e => match e with Alert r => [r] | _ => [] end) tr.

Definition nonEmpty (s : string) : bool :=
  match s with EmptyString => false | String _ _ => true end.




End Flow.

(** What the backend itself reports in a non-success answer. *)
Module Backend.
Import Player Flow.


End Backend.

(* ================================================================== *)
(** ** Sample data for concrete runs *)
(* ================================================================== *)

Module Samples.
Import Player UI.

Definition record (id : number) (file cam : string) : value :=
  VObj [ ("video_id", VNum id); ("filename", VStr file);
         ("upload_date_ist", VStr "2024-01-31 10:00:00");
         ("camera_id", VStr cam) ].

Definition r1 : value := record 1%float "gate-a.mp4" "1".
Definition r2 : value := record 2%float "gate-b.mp4" "2".

Definition someQuery : Query :=
  {| date := "2024-01-31"; start_time := ""; end_time := "23:59:59";
     camera_id := "2"; plate := "KA 01&x=1" |}.

(** A freshly mounted component. *)
Definition fresh : World :=
  {| state := initialState; blobStore := []; trace := [] |}.

(** A component that already shows a result and plays a clip. *)
Definition busy : World :=
  {| state := {| videoUrl := Some 0; searchResults := [r1];
                 query := someQuery |};
     blobStore := ["old clip"]; trace := [] |}.

Definition response (status_ok : bool) (body : option value) : Response :=
  {| ok := status_ok; json := body; text := None; blob := None |}.

Definition textResponse (status_ok : bool) (body : string) : Response :=
  {| ok := status_ok; json := None; text := Some body; blob := None |}.

Definition always (res : Response) : Network := fun _ => Some res.
Definition offline : Network := fun _ => None.

Definition guest : AuthIdentity :=
  {| isAuthenticated := false; user := None |}.
Definition member : AuthIdentity :=
  {| isAuthenticated := true; user := Some "asha" |}.

Definition blankForm : FormData := {| email := ""; password := "" |}.

End Samples.

(* ================================================================== *)
(** ** The sign-in and sign-up cards *)
(* ================================================================== *)

(** The handlers of [SignInCard] and [SignUpCard].  [TextInput] and
    [Button] are outside the sources; [TextInput] is taken to hand the
    text of its control to [onChange]. *)
Module Forms.
Import Player.

(** [formData]: an object with string values, as its property list in
    insertion order (no index-like names). *)
Definition FormData := list (string * string).

(** The form state and what the card did to the outside. *)
Record Card : Type := {
  formData : FormData;
  shown    : list effect
}.

(** [formData.k]; [None] is [undefined]. *)
Fixpoint read (k : string) (fd : FormData) : option string :=
  match fd with
  | [] => None
  | (k', v) :: rest => if String.eqb k' k then Some v else read k rest
  end.

(** [{ ...formData, [k]: v }] for a name [k] that is not integer-like
    (the cards use [email], [password], [fullName] and
    [confirmPassword]): an existing property keeps its place, a new one
    goes last. *)
Fixpoint assign (k v : string) (fd : FormData) : FormData :=
  match fd with
  | [] => [(k, v)]
  | (k', v') :: rest =>
      if String.eqb k' k then (k, v) :: rest
      else (k', v') :: assign k v rest
  end.

Definition getFormData : M Card FormData := fun c => (inr (formData c), c).

Definition setFormData (fd : FormData) : M Card unit :=
  fun c => (inr tt, {| formData := fd; shown := shown c |}).

Definition emit (e : effect) : M Card unit :=
  fun c => (inr tt, {| formData := formData c; shown := shown c ++ [e] |}).

(** [e.preventDefault()], with no guard on [e]. *)
Definition preventDefault (e : option Event) : M Card unit :=
  match e with
  | Some _ => emit PreventDefault
  | None => throw TypeError
  end.

(** [handleChange] of both cards:
    [setFormData({ ...formData, [field]: value })]. *)
Definition handleChange (field value : string) : M Card unit :=
  fd <- getFormData ;; setFormData (assign field value fd).

(** A property of [formData] inside a template literal. *)
Definition template (v : option string) : string :=
  match v with Some s => s | None => "undefined" end.

(** [a !== b] on two property reads. *)
Definition strict_neq (a b : option string) : bool :=
  match a, b with
  | Some s, Some t => negb (String.eqb s t)
  | None, None => false
  | _, _ => true
  end.

Module SignIn.

(** [useState({ email: '', password: '' })]. *)
Definition initial : FormData := [("email", ""); ("password", "")].

Definition handleSubmit (e : option Event) : M Card unit :=
  preventDefault e ;;
  fd <- getFormData ;;
  emit (Alert (VStr ("Signing in as: " ++ template (read "email" fd))%string)).

End SignIn.

Module SignUp.

Definition initial : FormData :=
  [("fullName", ""); ("email", ""); ("password", "");
   ("confirmPassword", "")].

Definition handleSubmit (e : option Event) : M Card unit :=
  preventDefault e ;;
  fd <- getFormData ;;
  if strict_neq (read "password" fd) (read "confirmPassword" fd)
  then emit (Alert (VStr "Passwords do not match!"))
  else emit (Alert (VStr "Account Created!")).

End SignUp.

End Forms.

(* ================================================================== *)
(** ** A session on the player: edits, searches and loads in a row *)
(* ================================================================== *)

Module Session.
Import Player Flow.

(** One user action; the backend may answer each request its own way. *)
Inductive action : Type :=
| Edit (f : field) (target_value : string)
| Do (net : Network) (op : operation).

Definition perform (a : action) : M World unit :=
  match a with
  | Edit f v => onChange f v
  | Do net op => run net op
  end.

(** The handlers of the actions, one after the other, each settled
    before the next action starts; a throw would end the row. *)
Fixpoint performAll (acts : list action) : M World unit :=
  match acts with
  | [] => ret tt
  | a :: rest => perform a ;; performAll rest
  end.

(** A load whose blob arrives. *)
Definition loadsBlob (a : action) : bool :=
  match a with
  | Do net (Load video_id) =>
      match net (videoPath video_id) with
      | Some res => ok res && match blob res with Some _ => true
                                                | None => false end
      | None => false
      end
  | _ => false
  end.

Definition isRequest (e : effect) : bool :=
  match e with Request _ => true | _ => false end.

Definition asksBackend (a : action) : bool :=
  match a with Do _ _ => true | Edit _ _ => false end.

(** [videoUrl] is empty or an object URL of the blob store. *)
Definition bound (w : World) : Prop :=
  match videoUrl (state w) with
  | None => True
  | Some url => url < List.length (blobStore w)
  end.

(** The name of a field of the form. *)
Definition fieldName (f : field) : string :=
  match f with
  | Fdate => "date" | Fstart_time => "start_time"
  | Fend_time => "end_time" | Fcamera_id => "camera_id"
  | Fplate => "plate"
  end.

(** The value a parameter list gives to a name, empty when it has none. *)
Definition valueOf (k : string) (p : list (string * string)) : string :=
  match find (fun kv => String.eqb (fst kv) k) p with
  | Some kv => snd kv
  | None => ""
  end.

(** The filter a parameter list stands for. *)
Definition readBack (p : list (string * string)) : Query :=
  {| date := valueOf "date" p; start_time := valueOf "start_time" p;
     end_time := valueOf "end_time" p; camera_id := valueOf "camera_id" p;
     plate := valueOf "plate" p |}.

(** Bytes that may stand in a query string as they are. *)
Definition urlByte (c : ascii) : bool :=
  URLSearchParams.unreserved c
  || existsb (Ascii.eqb c) ["+"; "%"; "="; "&"]%char.

Fixpoint allBytes (p : ascii -> bool) (s : string) : bool :=
  match s with
  | EmptyString => true
  | String c r => p c && allBytes p r
  end.

(** [null] and [undefined], the values a property read throws on. *)
Definition nullish (v : value) : bool :=
  match v with VNull | VUndefined => true | _ => false end.

(** [r.video_id] of a result that can be read from. *)
Definition videoIdOf (r : value) : value :=
  match Get r "video_id" with inr v => v | inl _ => VUndefined end.

End Session.

(* ================================================================== *)
(** ** The buttons of the stand-alone video player *)
(* ================================================================== *)

Module Controls.
Import VideoPlayer.

(** Lines 31-35: the two buttons and their [onClick]. *)
Inductive button : Type := PlayPauseButton | StopButton.

Definition press (b : button) : M World unit :=
  match b with
  | PlayPauseButton => playPause
  | StopButton => stopVideo
  end.

Fixpoint pressAll (bs : list button) : M World unit :=
  match bs with
  | [] => ret tt
  | b :: rest => press b ;; pressAll rest
  end.

Definition isPlayPause (b : button) : bool :=
  match b with PlayPauseButton => true | StopButton => false end.

Definition isStop (b : button) : bool :=
  match b with StopButton => true | PlayPauseButton => false end.

End Controls.

(* ================================================================== *)
(** ** Proof steps shared by the runs below *)
(* ================================================================== *)

(** Unfold the monad and the primitive effects of [Player]. *)
Ltac step :=
  unfold Flow.run, Player.performSearch, Player.loadVideo, Player.apiFetch,
    Player.alert, Player.emit, Player.getQuery, Player.setSearchResults,
    Player.setVideoUrl, Player.createObjectURL, or_else, lift, await,
    try_catch, bind, throw, ret, Flow.logged, Flow.prelude,
    Flow.requestUrl, Flow.errorPayload in *;
  simpl in *.

Ltac tidy := simpl; repeat rewrite <- app_assoc; simpl; try reflexivity.

(* ================================================================== *)
(** ** Reading a serialized query string back *)
(* ================================================================== *)

Section QueryStringFacts.
Import URLSearchParams QueryString.

Lemma lacks_append c a b :
  lacks c (a ++ b)%string = lacks c a && lacks c b.
Proof.
  induction a as [|d a IH]; simpl; [reflexivity|].
  now rewrite IH, andb_assoc.
Qed.

Lemma encode_byte_lacks_amp c : lacks "&" (encode_byte c) = true.
Proof. destruct c as [[] [] [] [] [] [] [] []]; reflexivity. Qed.

Lemma encode_byte_lacks_eq c : lacks "=" (encode_byte c) = true.
Proof. destruct c as [[] [] [] [] [] [] [] []]; reflexivity. Qed.

Lemma encode_lacks_amp s : lacks "&" (encode s) = true.
Proof.
  induction s as [|c s IH]; simpl; [reflexivity|].
  now rewrite lacks_append, encode_byte_lacks_amp, IH.
Qed.

Lemma encode_lacks_eq s : lacks "=" (encode s) = true.
Proof.
  induction s as [|c s IH]; simpl; [reflexivity|].
  now rewrite lacks_append, encode_byte_lacks_eq, IH.
Qed.

Lemma decode_encode_byte c t :
  decode (encode_byte c ++ t)%string = String c (decode t).
Proof. destruct c as [[] [] [] [] [] [] [] []]; reflexivity. Qed.

Lemma decode_encode s : decode (encode s) = s.
Proof.
  induction s as [|c s IH]; simpl; [reflexivity|].
  now rewrite decode_encode_byte, IH.
Qed.

Lemma cut_at_eq a b :
  lacks "=" a = true -> cut (a ++ String "=" b)%string = (a, b).
Proof.
  induction a as [|c a IH]; simpl; intros H; [reflexivity|].
  apply andb_prop in H as [Hc Ha].
  destruct (Ascii.eqb c "="); [discriminate|].
  now rewrite (IH Ha).
Qed.

Lemma split_single a : lacks "&" a = true -> split "&" a = [a].
Proof.
  induction a as [|c a IH]; simpl; intros H; [reflexivity|].
  apply andb_prop in H as [Hc Ha].
  destruct (Ascii.eqb c "&"); [discriminate|].
  now rewrite (IH Ha).
Qed.

Lemma split_at_amp a t :
  lacks "&" a = true ->
  split "&" (a ++ String "&" t)%string = a :: split "&" t.
Proof.
  induction a as [|c a IH]; simpl; intros H; [reflexivity|].
  apply andb_prop in H as [Hc Ha].
  destruct (Ascii.eqb c "&"); [discriminate|].
  now rewrite (IH Ha).
Qed.

Lemma pair_lacks_amp kv : lacks "&" (pair_toString kv) = true.
Proof.
  unfold pair_toString.
  now rewrite !lacks_append, !encode_lacks_amp.
Qed.

Lemma parse_piece kv :
  match pair_toString kv with
  | EmptyString => []
  | String _ _ =>
      [(decode (fst (cut (pair_toString kv))),
        decode (snd (cut (pair_toString kv))))]
  end = [kv].
Proof.
  destruct kv as [k v]. unfold pair_toString. simpl fst; simpl snd.
  change (encode k ++ "=" ++ encode v)%string
    with (encode k ++ String "=" (encode v))%string.
  rewrite (cut_at_eq _ _ (encode_lacks_eq k)). simpl.
  rewrite !decode_encode.
  now destruct (encode k).
Qed.

Lemma parse_first piece t :
  lacks "&" piece = true ->
  parse (piece ++ String "&" t)%string
  = match piece with
    | EmptyString => []
    | String _ _ => [(decode (fst (cut piece)), decode (snd (cut piece)))]
    end ++ parse t.
Proof.
  intros H. unfold parse. now rewrite (split_at_amp _ _ H).
Qed.

(** Reading a serialized parameter list back gives the list. *)
Lemma parse_toString (p : URLSearchParams.t) : parse (toString p) = p.
Proof.
  induction p as [|kv rest IH]; [reflexivity|].
  destruct rest as [|kv' rest'].
  - unfold parse. simpl toString.
    rewrite (split_single _ (pair_lacks_amp kv)). simpl.
    rewrite app_nil_r. apply parse_piece.
  - change (toString (kv :: kv' :: rest'))
      with (pair_toString kv ++ String "&" (toString (kv' :: rest')))%string.
    now rewrite (parse_first _ _ (pair_lacks_amp kv)), IH, parse_piece.
Qed.

End QueryStringFacts.

(* ================================================================== *)
(** ** Running the handlers *)
(* ================================================================== *)

Section Runs.
Import Player Flow.

Variable net : Network.
Variable w : World.

(** No response reached: both operations fall into their [catch]. *)
Lemma run_rejected op :
  net (requestUrl op w) = None ->
  run net op w
  = (inr tt, logged w (prelude op w ++ [Alert (VStr "Network error")])).
Proof.
  intros H. destruct op as [[[]|]|id]; step; rewrite H; tidy.
Qed.

(** A non-success answer to a search whose payload can be read from. *)
Lemma search_refused e res message error :
  net (searchUrl (query (state w))) = Some res ->
  ok res = false ->
  Get (errorPayload res) "message" = inr message ->
  Get (errorPayload res) "error" = inr error ->
  performSearch net e w
  = (inr tt,
     logged w (prelude (Search e) w
               ++ [Alert (if ToBoolean message then message
                          else if ToBoolean error then error
                          else VStr "Search failed")])).
Proof.
  intros Hnet Hok Hm He.
  destruct e as [[]|]; step; rewrite Hnet; simpl; rewrite Hok; simpl;
    (destruct (json res) as [body|]; simpl in *;
     [ rewrite Hm; simpl;
       (destruct (ToBoolean message); simpl;
        [|rewrite He; simpl; destruct (ToBoolean error)]); tidy
     | injection Hm as <-; injection He as <-; tidy ]).
Qed.

(** A non-success answer whose payload cannot be read from ([null]). *)
Lemma search_refused_thrown e res x :
  net (searchUrl (query (state w))) = Some res ->
  ok res = false ->
  Get (errorPayload res) "message" = inl x ->
  performSearch net e w
  = (inr tt,
     logged w (prelude (Search e) w ++ [Alert (VStr "Network error")])).
Proof.
  intros Hnet Hok Hm.
  destruct e as [[]|]; step; rewrite Hnet; simpl; rewrite Hok; simpl;
    (destruct (json res) as [body|]; simpl in *;
     [rewrite Hm; tidy | discriminate]).
Qed.

(** A success answer whose body parses. *)
Lemma search_answered e res data :
  net (searchUrl (query (state w))) = Some res ->
  ok res = true ->
  json res = Some data ->
  performSearch net e w
  = (inr tt,
     {| state := {| videoUrl := videoUrl (state w);
                    searchResults := if isArray data then elements data
                                     else [];
                    query := query (state w) |};
        blobStore := blobStore w;
        trace := trace w ++ prelude (Search e) w |}).
Proof.
  intros Hnet Hok Hj.
  destruct e as [[]|]; step; rewrite Hnet; simpl; rewrite Hok; simpl;
    rewrite Hj; tidy.
Qed.

(** A success answer whose body does not parse. *)
Lemma search_unparseable e res :
  net (searchUrl (query (state w))) = Some res ->
  ok res = true ->
  json res = None ->
  performSearch net e w
  = (inr tt,
     logged w (prelude (Search e) w ++ [Alert (VStr "Network error")])).
Proof.
  intros Hnet Hok Hj.
  destruct e as [[]|]; step; rewrite Hnet; simpl; rewrite Hok; simpl;
    rewrite Hj; tidy.
Qed.

(** A non-success answer to a video load. *)
Lemma load_refused video_id res :
  net (videoPath video_id) = Some res ->
  ok res = false ->
  loadVideo net video_id w
  = (inr tt,
     logged w [Request (videoPath video_id);
               Alert (match text res with
                      | Some (String c txt) => VStr (String c txt)
                      | Some EmptyString => VStr "Failed to load video"
                      | None => VStr "Network error"
                      end)]).
Proof.
  intros Hnet Hok. step. rewrite Hnet; simpl; rewrite Hok; simpl.
  destruct (text res) as [[|c txt]|]; tidy.
Qed.

(** A success answer to a video load. *)
Lemma load_answered video_id res :
  net (videoPath video_id) = Some res ->
  ok res = true ->
  loadVideo net video_id w
  = match blob res with
    | Some b =>
        (inr tt,
         {| state := {| videoUrl := Some (List.length (blobStore w));
                        searchResults := searchResults (state w);
                        query := query (state w) |};
            blobStore := blobStore w ++ [b];
            trace := trace w ++ [Request (videoPath video_id);
                                 SetTimeout PlayIfMounted 100] |})
    | None =>
        (inr tt,
         logged w [Request (videoPath video_id);
                   Alert (VStr "Network error")])
    end.
Proof.
  intros Hnet Hok. step. rewrite Hnet; simpl; rewrite Hok; simpl.
  destruct (blob res) as [b|]; tidy.
Qed.

End Runs.

(* ================================================================== *)
(** ** The query string of a search *)
(* ================================================================== *)

Section SearchQuery.
Import Player Flow.

(** The [forEach] of line 17 appends the pairs with a non-empty value,
    in the order of the entries. *)
Lemma forEach_keeps_nonEmpty entries acc :
  fold_left
    (fun params kv =>
       if ToBoolean (VStr (snd kv))
       then URLSearchParams.append params (fst kv) (snd kv)
       else params) entries acc
  = acc ++ filter (fun kv => nonEmpty (snd kv)) entries.
Proof.
  revert acc; induction entries as [|[k v] rest IH]; intros acc; simpl.
  - now rewrite app_nil_r.
  - rewrite IH. destruct v; simpl; [reflexivity|].
    unfold URLSearchParams.append. now rewrite <- app_assoc.
Qed.

Lemma searchParams_nonEmpty q :
  searchParams q = filter (fun kv => nonEmpty (snd kv)) (Object_entries q).
Proof. unfold searchParams. now rewrite forEach_keeps_nonEmpty. Qed.


(** A search never ends in an uncaught error and always sends its
    request first. *)
Lemma performSearch_sends net e w :
  exists w' rest,
    performSearch net e w = (inr tt, w')
    /\ trace w' = trace w ++ prelude (Search e) w ++ rest.
Proof.
  destruct (net (searchUrl (query (state w)))) as [res|] eqn:Hnet.
  - destruct (ok res) eqn:Hok.
    + destruct (json res) as [data|] eqn:Hj.
      * rewrite (search_answered net w e res data Hnet Hok Hj).
        eexists; exists []; split; [reflexivity|]. simpl.
        now rewrite app_nil_r.
      * rewrite (search_unparseable net w e res Hnet Hok Hj).
        eexists; eexists; split; reflexivity.
    + destruct (Get (errorPayload res) "message") as [x|message] eqn:Hm.
      * rewrite (search_refused_thrown net w e res x Hnet Hok Hm).
        eexists; eexists; split; reflexivity.
      * assert (He : exists error, Get (errorPayload res) "error" = inr error).
        { destruct (errorPayload res); simpl in *; try discriminate;
            eexists; reflexivity. }
        destruct He as [error He].
        rewrite (search_refused net w e res message error Hnet Hok Hm He).
        eexists; eexists; split; reflexivity.
  - change (performSearch net e w) with (run net (Search e) w).
    rewrite (run_rejected net w (Search e) Hnet).
    eexists; eexists; split; reflexivity.
Qed.


End SearchQuery.

Example searchUrl_someQuery :
  Player.searchUrl Samples.someQuery
  = "/search?date=2024-01-31&end_time=23%3A59%3A59&camera_id=2&plate=KA+01%26x%3D1".
Proof. reflexivity. Qed.

(* ================================================================== *)
(** ** Outcomes of a search and of a video load *)
(* ================================================================== *)

Section Outcomes.
Import Player Flow Samples.




(** C4: a success response whose parsed payload is not an array empties
    the result set, and no failure reason is shown. *)
Theorem search_non_array_gives_empty net e w res data :
  net (searchUrl (query (state w))) = Some res ->
  ok res = true ->
  json res = Some data ->
  isArray data = false ->
  performSearch net e w
  = (inr tt,
     {| state := {| videoUrl := videoUrl (state w);
                    searchResults := [];
                    query := query (state w) |};
        blobStore := blobStore w;
        trace := trace w ++ prelude (Search e) w |})
  /\ alerts (prelude (Search e) w) = [].
Proof.
  intros Hnet Hok Hj Harr.
  rewrite (search_answered net w e res data Hnet Hok Hj), Harr.
  split; [reflexivity | now destruct e].
Qed.

(** The payload [{}] on a component that shows a result. *)
Lemma search_non_array_gives_empty_witness :
  performSearch (always (response true (Some (VObj []))))
                (Some SubmitEvent) busy
  = (inr tt,
     {| state := {| videoUrl := Some 0; searchResults := [];
                    query := someQuery |};
        blobStore := ["old clip"];
        trace := [PreventDefault; Request (searchUrl someQuery)] |})
  /\ alerts [PreventDefault; Request (searchUrl someQuery)] = [].
Proof.
  exact (search_non_array_gives_empty
           (always (response true (Some (VObj []))))
           (Some SubmitEvent) busy
           (response true (Some (VObj []))) (VObj [])
           eq_refl eq_refl eq_refl eq_refl).
Defined.





(** C6: a success response whose payload is an array makes that array,
    element for element and in the same order, the new result set,
    whatever the old one was; no failure reason is shown. *)
Theorem search_replaces_results net e w res results :
  net (searchUrl (query (state w))) = Some res ->
  ok res = true ->
  json res = Some (VArr results) ->
  performSearch net e w
  = (inr tt,
     {| state := {| videoUrl := videoUrl (state w);
                    searchResults := results;
                    query := query (state w) |};
        blobStore := blobStore w;
        trace := trace w ++ prelude (Search e) w |})
  /\ alerts (prelude (Search e) w) = [].
Proof.
  intros Hnet Hok Hj.
  rewrite (search_answered net w e res (VArr results) Hnet Hok Hj).
  split; [reflexivity | now destruct e].
Qed.

Lemma search_replaces_results_witness :
  performSearch (always (response true (Some (VArr [r2; r1]))))
                None busy
  = (inr tt,
     {| state := {| videoUrl := Some 0; searchResults := [r2; r1];
                    query := someQuery |};
        blobStore := ["old clip"];
        trace := [Request (searchUrl someQuery)] |})
  /\ alerts [Request (searchUrl someQuery)] = [].
Proof.
  exact (search_replaces_results
           (always (response true (Some (VArr [r2; r1]))))
           None busy (response true (Some (VArr [r2; r1]))) [r2; r1]
           eq_refl eq_refl eq_refl).
Defined.

(** C7: a search or a video load whose success is not confirmed (no
    response, a non-success status, or a body that cannot be read)
    leaves the result set, the playback session, the filter and the blob
    store as they were, and surfaces one failure reason. *)
Theorem failure_keeps_state net op w :
  succeeded net op w = false ->
  state (snd (run net op w)) = state w
  /\ blobStore (snd (run net op w)) = blobStore w
  /\ exists reason,
       run net op w
       = (inr tt, logged w (prelude op w ++ [Alert reason])).
Proof.
  unfold succeeded. intros Hf.
  destruct (net (requestUrl op w)) as [res|] eqn:Hnet.
  - destruct (ok res) eqn:Hok; simpl in Hf.
    + destruct op as [e|id]; simpl in Hnet.
      * destruct (json res) eqn:Hj; [discriminate|].
        change (run net (Search e) w) with (performSearch net e w).
        rewrite (search_unparseable net w e res Hnet Hok Hj).
        repeat split; eexists; reflexivity.
      * change (run net (Load id) w) with (loadVideo net id w).
        rewrite (load_answered net w id res Hnet Hok).
        destruct (blob res); [discriminate|].
        repeat split; eexists; reflexivity.
    + destruct op as [e|id]; simpl in Hnet.
      * change (run net (Search e) w) with (performSearch net e w).
        destruct (Get (errorPayload res) "message") as [x|message] eqn:Hm.
        -- rewrite (search_refused_thrown net w e res x Hnet Hok Hm).
           repeat split; eexists; reflexivity.
        -- assert (He : exists error,
                      Get (errorPayload res) "error" = inr error).
           { destruct (errorPayload res); simpl in *; try discriminate;
               eexists; reflexivity. }
           destruct He as [error He].
           rewrite (search_refused net w e res message error
                      Hnet Hok Hm He).
           repeat split; eexists; reflexivity.
      * change (run net (Load id) w) with (loadVideo net id w).
        rewrite (load_refused net w id res Hnet Hok).
        repeat split; eexists; reflexivity.
  - rewrite (run_rejected net w op Hnet).
    repeat split; eexists; reflexivity.
Qed.

Lemma failure_keeps_state_witness :
  state (snd (run (always (textResponse false "no such video"))
                  (Load "42") busy)) = state busy
  /\ blobStore (snd (run (always (textResponse false "no such video"))
                         (Load "42") busy)) = blobStore busy
  /\ exists reason,
       run (always (textResponse false "no such video")) (Load "42") busy
       = (inr tt, logged busy (prelude (Load "42") busy ++ [Alert reason])).
Proof.
  exact (failure_keeps_state (always (textResponse false "no such video"))
           (Load "42") busy eq_refl).
Defined.

(** C8: for a non-success response to a video load whose body is read as
    the text [txt], the surfaced reason is [txt] itself when it is not
    empty and the generic failed-to-load reason when it is. *)
Theorem load_failure_reason net video_id w res txt :
  net (videoPath video_id) = Some res ->
  ok res = false ->
  text res = Some txt ->
  loadVideo net video_id w
  = (inr tt,
     logged w [Request (videoPath video_id);
               Alert (VStr (if nonEmpty txt then txt
                            else "Failed to load video"))]).
Proof.
  intros Hnet Hok Ht.
  rewrite (load_refused net w video_id res Hnet Hok), Ht.
  now destruct txt.
Qed.

Lemma load_failure_reason_witness :
  loadVideo (always (textResponse false "no such video")) "42" busy
  = (inr tt,
     logged busy [Request "/video/decrypted/42";
                  Alert (VStr "no such video")])
  /\ loadVideo (always (textResponse false "")) "42" busy
     = (inr tt,
        logged busy [Request "/video/decrypted/42";
                     Alert (VStr "Failed to load video")]).
Proof.
  split.
  - exact (load_failure_reason (always (textResponse false "no such video"))
             "42" busy (textResponse false "no such video") "no such video"
             eq_refl eq_refl eq_refl).
  - exact (load_failure_reason (always (textResponse false ""))
             "42" busy (textResponse false "") ""
             eq_refl eq_refl eq_refl).
Defined.

(** C10: a success response whose body does not parse as JSON surfaces
    the network-error reason and leaves the result set (and the rest of
    the state) as it was; the result set is not emptied. *)
Theorem search_unparseable_success net e w res :
  net (searchUrl (query (state w))) = Some res ->
  ok res = true ->
  json res = None ->
  performSearch net e w
  = (inr tt,
     logged w (prelude (Search e) w ++ [Alert (VStr "Network error")]))
  /\ searchResults (state (snd (performSearch net e w)))
     = searchResults (state w).
Proof.
  intros Hnet Hok Hj.
  rewrite (search_unparseable net w e res Hnet Hok Hj).
  split; reflexivity.
Qed.

Lemma search_unparseable_success_witness :
  performSearch (always (response true None)) None busy
  = (inr tt,
     logged busy [Request (searchUrl someQuery);
                  Alert (VStr "Network error")])
  /\ searchResults (state (snd (performSearch (always (response true None))
                                              None busy)))
     = [r1].
Proof.
  exact (search_unparseable_success (always (response true None)) None busy
           (response true None) eq_refl eq_refl eq_refl).
Defined.

End Outcomes.

(* ================================================================== *)
(** ** The sign-in gate *)
(* ================================================================== *)

Section Gate.
Import Player UI Samples.

(** C2: when [isAuthenticated] is false, the exported root renders only
    the sign-in notice of [Player], and in every root of App.jsx the
    rendered tree shows no part of the search/player surface, every
    handler a user can reach belongs to the sign-in card, and no
    [loadVideo] handler is reachable. *)
Theorem unauthenticated_gate ctx st fd :
  isAuthenticated ctx = false ->
  App ctx st = inr signInNotice
  /\ forall root, In root [App ctx st; InnerApp ctx st fd] ->
       exists tree,
         root = inr tree
         /\ showsSurface tree = false
         /\ forallb signInHandler (handlers_of tree) = true
         /\ forall video_id, ~ In (loadVideo_h video_id) (handlers_of tree).
Proof.
  intros Hguest. unfold App, InnerApp, UI.Player. rewrite Hguest. simpl.
  split; [reflexivity|].
  intros root [<-|[<-|[]]]; eexists; (split; [reflexivity|]);
    (split; [reflexivity|]); (split; [reflexivity|]);
    intros video_id Hin; simpl in Hin; intuition discriminate.
Qed.

Lemma unauthenticated_gate_witness :
  App guest busy.(state) = inr signInNotice
  /\ forall root,
       In root [App guest busy.(state);
                InnerApp guest busy.(state) blankForm] ->
       exists tree,
         root = inr tree
         /\ showsSurface tree = false
         /\ forallb signInHandler (handlers_of tree) = true
         /\ forall video_id, ~ In (loadVideo_h video_id) (handlers_of tree).
Proof.
  exact (unauthenticated_gate guest busy.(state) blankForm eq_refl).
Defined.

(** For comparison: a signed-in user does get the surface, with a
    [loadVideo] handler for each result. *)
Example member_sees_surface :
  exists tree,
    App member busy.(state) = inr tree
    /\ showsSurface tree = true
    /\ In (loadVideo_h (VNum 1%float)) (handlers_of tree)
    /\ In performSearch_h (handlers_of tree).
Proof.
  eexists. split; [reflexivity|]. split; [reflexivity|].
  split; simpl; tauto.
Qed.

(** Only [InnerApp] mounts the sign-in card; and a [null] entry in the
    result list makes the render of a signed-in [Player] throw. *)
Example guest_roots :
  handlers_of signInNotice = []
  /\ InnerApp guest initialState blankForm
     = inr (Elem "div" [] []
              [ Elem "header" [] []
                  [Elem "div" [] [] [Text "Electroverse"];
                   Elem "nav" [] [] []];
                Elem "main" [] [] [SignInCard false blankForm] ])
  /\ UI.Player member {| videoUrl := None; searchResults := [VNull];
                         query := initialQuery |}
     = inl TypeError.
Proof. repeat split. Qed.

End Gate.

(* ================================================================== *)
(** ** The play/pause/stop surface *)
(* ================================================================== *)

Section Surface.
Import VideoPlayer.

(** One press on a mounted element. *)
Lemma playPause_mounted (v : HTMLVideoElement) (cmds : list command) :
  playPause {| videoRef := Some v; issued := cmds |}
  = (inr tt,
     {| videoRef := Some {| src := src v; paused := negb (paused v);
                            currentTime := currentTime v |};
        issued := cmds ++ [if paused v then play else pause] |}).
Proof.
  unfold playPause, video_paused, video_play, video_pause, on_video, bind.
  simpl. rewrite app_nil_r. destruct v as [s [] t]; reflexivity.
Qed.

(** Before the element is mounted the handler throws and does nothing
    else. *)
Lemma playPause_unmounted cmds :
  playPause {| videoRef := None; issued := cmds |}
  = (inl TypeError, {| videoRef := None; issued := cmds |}).
Proof. reflexivity. Qed.

(** Two presses bring the element back to its paused state. *)
Lemma playPause_twice (v : HTMLVideoElement) (cmds : list command) :
  snd ((playPause ;; playPause) {| videoRef := Some v; issued := cmds |})
  = {| videoRef := Some v;
       issued := cmds ++ (if paused v then [play; pause]
                          else [pause; play]) |}.
Proof.
  unfold bind. rewrite playPause_mounted, playPause_mounted. simpl.
  destruct v as [s [] t]; simpl; now rewrite <- app_assoc.
Qed.

(** [stopVideo] pauses and seeks to the start. *)
Lemma stopVideo_resets (v : HTMLVideoElement) (cmds : list command) :
  stopVideo {| videoRef := Some v; issued := cmds |}
  = (inr tt,
     {| videoRef := Some {| src := src v; paused := true;
                            currentTime := 0%float |};
        issued := cmds ++ [pause; set_currentTime 0%float] |}).
Proof.
  unfold stopVideo, video_pause, video_set_currentTime, on_video, bind.
  simpl. now rewrite <- app_assoc.
Qed.

End Surface.

(* ================================================================== *)
(** ** Sessions on the player *)
(* ================================================================== *)

Section Sessions.
Import Player Flow Session.

(** An operation whose success is not confirmed only shows a reason. *)
Lemma run_failed net op w :
  succeeded net op w = false ->
  exists reason,
    run net op w = (inr tt, logged w (prelude op w ++ [Alert reason])).
Proof.
  unfold succeeded. intros Hf.
  destruct (net (requestUrl op w)) as [res|] eqn:Hnet.
  - destruct (ok res) eqn:Hok; simpl in Hf.
    + destruct op as [e|id]; simpl in Hnet.
      * destruct (json res) eqn:Hj; [discriminate|].
        eexists. apply (search_unparseable net w e res Hnet Hok Hj).
      * change (run net (Load id) w) with (loadVideo net id w).
        rewrite (load_answered net w id res Hnet Hok).
        destruct (blob res); [discriminate|]. eexists; reflexivity.
    + destruct op as [e|id]; simpl in Hnet.
      * change (run net (Search e) w) with (performSearch net e w).
        destruct (Get (errorPayload res) "message") as [x|message] eqn:Hm.
        -- eexists. apply (search_refused_thrown net w e res x Hnet Hok Hm).
        -- assert (He : exists error,
                      Get (errorPayload res) "error" = inr error).
           { destruct (errorPayload res); simpl in *; try discriminate;
               eexists; reflexivity. }
           destruct He as [error He]. eexists.
           apply (search_refused net w e res message error Hnet Hok Hm He).
      * eexists. apply (load_refused net w id res Hnet Hok).
  - eexists. apply (run_rejected net w op Hnet).
Qed.

(** The three ways an operation can end. *)
Lemma run_outcome net op w :
  (succeeded net op w = false
   /\ exists reason,
        run net op w = (inr tt, logged w (prelude op w ++ [Alert reason])))
  \/ (succeeded net op w = true
      /\ exists e results,
           op = Search e
           /\ run net op w
              = (inr tt,
                 {| state := {| videoUrl := videoUrl (state w);
                                searchResults := results;
                                query := query (state w) |};
                    blobStore := blobStore w;
                    trace := trace w ++ prelude op w |}))
  \/ (succeeded net op w = true
      /\ exists video_id b,
           op = Load video_id
           /\ run net op w
              = (inr tt,
                 {| state := {| videoUrl := Some (List.length (blobStore w));
                                searchResults := searchResults (state w);
                                query := query (state w) |};
                    blobStore := blobStore w ++ [b];
                    trace := trace w ++ prelude op w
                             ++ [SetTimeout PlayIfMounted 100] |})).
Proof.
  destruct (succeeded net op w) eqn:Hs.
  - right. unfold succeeded in Hs.
    destruct (net (requestUrl op w)) as [res|] eqn:Hnet; [|discriminate].
    apply andb_prop in Hs as [Hok Hbody].
    destruct op as [e|id]; simpl in Hnet.
    + left. split; [reflexivity|].
      destruct (json res) as [data|] eqn:Hj; [|discriminate].
      exists e. eexists. split; [reflexivity|].
      apply (search_answered net w e res data Hnet Hok Hj).
    + right. split; [reflexivity|].
      destruct (blob res) as [b|] eqn:Hb; [|discriminate].
      exists id, b. split; [reflexivity|].
      change (run net (Load id) w) with (loadVideo net id w).
      rewrite (load_answered net w id res Hnet Hok), Hb. reflexivity.
  - left. split; [reflexivity|]. now apply run_failed.
Qed.

Lemma onChange_run f v w :
  onChange f v w
  = (inr tt,
     {| state := {| videoUrl := videoUrl (state w);
                    searchResults := searchResults (state w);
                    query := spread_with (query (state w)) f v |};
        blobStore := blobStore w; trace := trace w |}).
Proof. reflexivity. Qed.

(** One action never throws. *)
Lemma perform_returns a w : exists w', perform a w = (inr tt, w').
Proof.
  destruct a as [f v|net op]; simpl.
  - eexists; apply onChange_run.
  - destruct (run_outcome net op w)
      as [[_ [r H]]|[[_ (e & rs & _ & H)]|[_ (id & b & _ & H)]]];
      rewrite H; eexists; reflexivity.
Qed.

Lemma performAll_cons a rest w w1 :
  perform a w = (inr tt, w1) ->
  performAll (a :: rest) w = performAll rest w1.
Proof. intros H. simpl. unfold bind. now rewrite H. Qed.

(** X1: the promise returned by [performSearch] and by [loadVideo]
    never rejects: whatever the backend answers, every throw and
    rejection inside the handler is caught there. *)
Theorem handlers_never_reject net op w :
  fst (run net op w) = inr tt.
Proof.
  destruct (run_outcome net op w)
    as [[_ [r H]]|[[_ (e & rs & _ & H)]|[_ (id & b & _ & H)]]];
    now rewrite H.
Qed.

(** In a row of actions every handler runs to its end (the renders
    between the actions are not part of the row). *)
Lemma performAll_returns acts w :
  fst (performAll acts w) = inr tt.
Proof.
  revert w. induction acts as [|a rest IH]; intros w; [reflexivity|].
  destruct (perform_returns a w) as [w1 H1].
  rewrite (performAll_cons a rest w w1 H1). apply IH.
Qed.

Lemma loadsBlob_succeeded net op w :
  loadsBlob (Do net op)
  = match op with
    | Load _ => succeeded net op w
    | Search _ => false
    end.
Proof. now destruct op. Qed.

(** What one action does to the blob store. *)
Lemma perform_blobStore a w :
  exists more,
    blobStore (snd (perform a w)) = blobStore w ++ more
    /\ List.length more = (if loadsBlob a then 1 else 0).
Proof.
  destruct a as [f v|net op].
  - exists []. simpl perform. rewrite onChange_run. simpl.
    now rewrite app_nil_r.
  - rewrite (loadsBlob_succeeded net op w). simpl perform.
    destruct (run_outcome net op w)
      as [[Hs [r H]]|[[Hs (e & rs & Hop & H)]|[Hs (id & b & Hop & H)]]];
      rewrite H, Hs; cbn [snd blobStore logged].
    + exists []. rewrite app_nil_r. now destruct op.
    + exists []. rewrite app_nil_r. now subst op.
    + exists [b]. now subst op.
Qed.

(** X2: object URLs are never released: over any session the blob store
    keeps every old blob in place and gains exactly one blob per load
    whose blob arrived. *)
Theorem session_blob_store_grows acts w :
  exists more,
    blobStore (snd (performAll acts w)) = blobStore w ++ more
    /\ List.length more = List.length (filter loadsBlob acts).
Proof.
  revert w. induction acts as [|a rest IH]; intros w.
  - exists []. simpl. now rewrite app_nil_r.
  - destruct (perform_returns a w) as [w1 H1].
    rewrite (performAll_cons a rest w w1 H1).
    destruct (perform_blobStore a w) as (m1 & Hm1 & Hl1).
    rewrite H1 in Hm1; simpl in Hm1.
    destruct (IH w1) as (m2 & Hm2 & Hl2).
    exists (m1 ++ m2). rewrite Hm2, Hm1, <- app_assoc.
    split; [reflexivity|].
    rewrite length_app, Hl1, Hl2. simpl.
    now destruct (loadsBlob a).
Qed.

Lemma perform_bound a w : bound w -> bound (snd (perform a w)).
Proof.
  unfold bound. intros Hb.
  destruct a as [f v|net op]; simpl perform.
  - rewrite onChange_run. exact Hb.
  - destruct (run_outcome net op w)
      as [[Hs [r H]]|[[Hs (e & rs & Hop & H)]|[Hs (id & b & Hop & H)]]];
      rewrite H; simpl; try exact Hb.
    rewrite length_app. simpl. lia.
Qed.

(** X3: if [videoUrl] is empty or an object URL of the blob store, it
    stays so over any session: the player never holds a dangling
    object URL. *)
Theorem session_keeps_bound acts w :
  bound w -> bound (snd (performAll acts w)).
Proof.
  revert w. induction acts as [|a rest IH]; intros w Hb; [exact Hb|].
  destruct (perform_returns a w) as [w1 H1].
  rewrite (performAll_cons a rest w w1 H1). apply IH.
  pose proof (perform_bound a w Hb) as Hb1. now rewrite H1 in Hb1.
Qed.

Lemma session_keeps_bound_witness :
  bound Samples.busy
  /\ bound (snd (performAll
                   [ Do (Samples.always
                           {| ok := true; json := None; text := None;
                              blob := Some "new clip" |}) (Load "7");
                     Edit Fplate "";
                     Do Samples.offline (Search None) ]
                   Samples.busy)).
Proof.
  split; [vm_compute; lia|].
  apply (session_keeps_bound _ Samples.busy). vm_compute; lia.
Defined.

End Sessions.

Section Requests.
Import Player Flow Session.

Lemma filter_isRequest_app tr es :
  filter isRequest (tr ++ es) = filter isRequest tr ++ filter isRequest es.
Proof. apply filter_app. Qed.

Lemma prelude_requests op w :
  List.length (filter isRequest (prelude op w)) = 1.
Proof. now destruct op as [[[]|]|id]. Qed.

Lemma perform_requests a w :
  List.length (filter isRequest (trace (snd (perform a w))))
  = List.length (filter isRequest (trace w))
    + (if asksBackend a then 1 else 0).
Proof.
  destruct a as [f v|net op]; simpl perform; simpl asksBackend.
  - rewrite onChange_run. simpl. lia.
  - destruct (run_outcome net op w)
      as [[Hs [r H]]|[[Hs (e & rs & Hop & H)]|[Hs (id & b & Hop & H)]]];
      rewrite H; cbn [snd trace logged];
      rewrite ?filter_isRequest_app, ?length_app, prelude_requests;
      reflexivity.
Qed.

(** X4: every search and every load sends exactly one request and an
    edit sends none: over a session the number of requests in the trace
    grows by the number of searches and loads (no retry, no merging of
    repeated requests). *)
Theorem session_requests acts w :
  List.length (filter isRequest (trace (snd (performAll acts w))))
  = List.length (filter isRequest (trace w))
    + List.length (filter asksBackend acts).
Proof.
  revert w. induction acts as [|a rest IH]; intros w; [simpl; lia|].
  destruct (perform_returns a w) as [w1 H1].
  rewrite (performAll_cons a rest w w1 H1), IH.
  pose proof (perform_requests a w) as Hr. rewrite H1 in Hr; simpl in Hr.
  rewrite Hr. simpl. destruct (asksBackend a); simpl; lia.
Qed.

(** X5: an operation shows a failure reason exactly when its success is
    not confirmed, and then exactly one: after its request the trace
    gains one alert on a failure and none on a success. *)
Theorem alert_iff_not_succeeded net op w :
  exists tail,
    trace (snd (run net op w)) = trace w ++ prelude op w ++ tail
    /\ alerts (prelude op w) = []
    /\ List.length (alerts tail) = (if succeeded net op w then 0 else 1).
Proof.
  destruct (run_outcome net op w)
    as [[Hs [r H]]|[[Hs (e & rs & Hop & H)]|[Hs (id & b & Hop & H)]]];
    rewrite H, Hs; cbn [snd trace logged].
  - exists [Alert r]. repeat split. now destruct op as [[[]|]|id].
  - exists []. rewrite app_nil_r. repeat split. now destruct op as [[[]|]|id].
  - exists [SetTimeout PlayIfMounted 100]. repeat split.
    now destruct op as [[[]|]|id'].
Qed.

(** X6: a search never touches the playback session, the blob store or
    the filter, and a load never touches the result set or the filter;
    so the next search asks for the same URL. *)
Theorem operations_frame net op w :
  query (state (snd (run net op w))) = query (state w)
  /\ (forall e, requestUrl (Search e) (snd (run net op w))
                = requestUrl (Search e) w)
  /\ match op with
     | Search _ =>
         videoUrl (state (snd (run net op w))) = videoUrl (state w)
         /\ blobStore (snd (run net op w)) = blobStore w
     | Load _ =>
         searchResults (state (snd (run net op w)))
         = searchResults (state w)
     end.
Proof.
  destruct (run_outcome net op w)
    as [[Hs [r H]]|[[Hs (e & rs & Hop & H)]|[Hs (id & b & Hop & H)]]];
    rewrite H; cbn [snd state logged]; subst;
    repeat split; now destruct op.
Qed.

(** X7: a load whose answer has a success status and a readable body
    stores the blob under a fresh object URL, binds that URL as the
    playback session in place of any earlier one, asks once for playback
    100 ms later and shows no failure reason; results and filter stay. *)
Theorem load_binds_session net video_id w res b :
  net (videoPath video_id) = Some res ->
  ok res = true ->
  blob res = Some b ->
  loadVideo net video_id w
  = (inr tt,
     {| state := {| videoUrl := Some (List.length (blobStore w));
                    searchResults := searchResults (state w);
                    query := query (state w) |};
        blobStore := blobStore w ++ [b];
        trace := trace w ++ [Request (videoPath video_id);
                             SetTimeout PlayIfMounted 100] |})
  /\ nth_error (blobStore w ++ [b]) (List.length (blobStore w)) = Some b.
Proof.
  intros Hnet Hok Hb.
  rewrite (load_answered net w video_id res Hnet Hok), Hb.
  split; [reflexivity|].
  rewrite nth_error_app2, Nat.sub_diag; [reflexivity | lia].
Qed.

Lemma load_binds_session_witness :
  loadVideo (Samples.always {| ok := true; json := None; text := None;
                               blob := Some "new clip" |})
            "7" Samples.busy
  = (inr tt,
     {| state := {| videoUrl := Some 1;
                    searchResults := [Samples.r1];
                    query := Samples.someQuery |};
        blobStore := ["old clip"; "new clip"];
        trace := [Request "/video/decrypted/7";
                  SetTimeout PlayIfMounted 100] |})
  /\ nth_error ["old clip"; "new clip"] 1 = Some "new clip".
Proof.
  exact (load_binds_session
           (Samples.always {| ok := true; json := None; text := None;
                              blob := Some "new clip" |})
           "7" Samples.busy
           {| ok := true; json := None; text := None;
              blob := Some "new clip" |} "new clip"
           eq_refl eq_refl eq_refl).
Defined.

End Requests.

(* ================================================================== *)
(** ** Editing the filter *)
(* ================================================================== *)

Section Edits.
Import Player Flow Session.

(** An edit of one field gives that entry of the filter the new
    value and leaves the other entries, the key order, the result set,
    the playback session, the blob store and the trace as they were. *)
Lemma edit_sets_field f v w :
  let w' := snd (onChange f v w) in
  fst (onChange f v w) = inr tt
  /\ Object_entries (query (state w'))
     = map (fun kv => if String.eqb (fst kv) (fieldName f)
                      then (fst kv, v) else kv)
           (Object_entries (query (state w)))
  /\ searchResults (state w') = searchResults (state w)
  /\ videoUrl (state w') = videoUrl (state w)
  /\ blobStore w' = blobStore w
  /\ trace w' = trace w.
Proof.
  rewrite onChange_run. simpl. repeat split. now destruct f.
Qed.



Lemma valueOf_searchParams q :
  readBack (searchParams q) = q.
Proof.
  rewrite searchParams_nonEmpty.
  destruct q as [[|? ?] [|? ?] [|? ?] [|? ?] [|? ?]]; reflexivity.
Qed.

Lemma append_inj_l (p s t : string) :
  (p ++ s)%string = (p ++ t)%string -> s = t.
Proof.
  induction p as [|c p IH]; simpl; intros H; [assumption|].
  injection H as H. now apply IH.
Qed.

Lemma searchUrl_inj q q' :
  searchUrl q = searchUrl q' -> q = q'.
Proof.
  unfold searchUrl. intros H. apply append_inj_l in H.
  apply (f_equal QueryString.parse) in H.
  rewrite !parse_toString in H.
  rewrite <- (valueOf_searchParams q), <- (valueOf_searchParams q').
  now rewrite H.
Qed.

(** X9: for filters whose texts hold no lone surrogate, different
    filters give different search URLs: leaving out the empty fields and
    percent-encoding the values loses and confuses nothing. *)
Theorem searchUrl_separates_filters q q' :
  q <> q' -> searchUrl q <> searchUrl q'.
Proof.
  intros Hne Heq. apply Hne. now apply searchUrl_inj.
Qed.

Lemma searchUrl_separates_filters_witness :
  spread_with Samples.someQuery Fplate "A B"
  <> spread_with Samples.someQuery Fplate "A+B"
  /\ searchUrl (spread_with Samples.someQuery Fplate "A B")
     <> searchUrl (spread_with Samples.someQuery Fplate "A+B").
Proof.
  split; [discriminate|].
  apply (searchUrl_separates_filters
           (spread_with Samples.someQuery Fplate "A B")
           (spread_with Samples.someQuery Fplate "A+B")).
  discriminate.
Defined.

Lemma allBytes_append p s t :
  allBytes p (s ++ t)%string = allBytes p s && allBytes p t.
Proof.
  induction s as [|c s IH]; simpl; [reflexivity|].
  now rewrite IH, andb_assoc.
Qed.

Lemma encode_byte_urlBytes c :
  allBytes urlByte (URLSearchParams.encode_byte c) = true.
Proof. destruct c as [[] [] [] [] [] [] [] []]; reflexivity. Qed.

Lemma encode_urlBytes s : allBytes urlByte (URLSearchParams.encode s) = true.
Proof.
  induction s as [|c s IH]; simpl; [reflexivity|].
  now rewrite allBytes_append, encode_byte_urlBytes, IH.
Qed.

Lemma toString_urlBytes p :
  allBytes urlByte (URLSearchParams.toString p) = true.
Proof.
  induction p as [|[k v] rest IH]; [reflexivity|].
  assert (Hkv : allBytes urlByte (URLSearchParams.pair_toString (k, v))
                = true).
  { unfold URLSearchParams.pair_toString. simpl fst; simpl snd.
    now rewrite !allBytes_append, !encode_urlBytes. }
  destruct rest as [|kv' rest']; [exact Hkv|].
  change (URLSearchParams.toString ((k, v) :: kv' :: rest'))
    with (URLSearchParams.pair_toString (k, v)
          ++ "&" ++ URLSearchParams.toString (kv' :: rest'))%string.
  now rewrite !allBytes_append, Hkv, IH.
Qed.

(** X10: the query part of a search URL is made of ASCII letters and
    digits, [*], [-], [.], [_], [+], [%], [=] and [&] only, whatever
    text the filter holds: no raw space, quote, [#], control or
    non-ASCII byte reaches the URL. *)
Theorem searchUrl_bytes q :
  exists query_part,
    searchUrl q = ("/search?" ++ query_part)%string
    /\ allBytes urlByte query_part = true.
Proof.
  eexists. split; [reflexivity|]. apply toString_urlBytes.
Qed.

End Edits.

(* ================================================================== *)
(** ** What a signed-in user gets *)
(* ================================================================== *)

Section Rendering.
Import Player Flow Session UI.

Lemma resultItem_nullish r :
  nullish r = true -> resultItem r = inl TypeError.
Proof. destruct r; simpl; intros H; (discriminate || reflexivity). Qed.

Lemma resultItem_renders r :
  nullish r = false ->
  exists item,
    resultItem r = inr item
    /\ handlers_of item = [loadVideo_h (videoIdOf r)]
    /\ videos_of item = [].
Proof.
  destruct r; simpl; intros H; try discriminate;
    eexists; repeat split.
Qed.

Lemma mapM_nullish rs :
  existsb nullish rs = true -> mapM resultItem rs = inl TypeError.
Proof.
  induction rs as [|r rest IH]; simpl; intros H; [discriminate|].
  destruct (nullish r) eqn:Hr.
  - now rewrite (resultItem_nullish r Hr).
  - destruct (resultItem_renders r Hr) as (item & Hi & _).
    rewrite Hi, (IH H). reflexivity.
Qed.

Lemma mapM_renders rs :
  existsb nullish rs = false ->
  exists items,
    mapM resultItem rs = inr items
    /\ flat_map handlers_of items
       = map (fun r => loadVideo_h (videoIdOf r)) rs
    /\ flat_map videos_of items = [].
Proof.
  induction rs as [|r rest IH]; simpl; intros H.
  - exists []. repeat split.
  - apply orb_false_elim in H as [Hr Hrest].
    destruct (resultItem_renders r Hr) as (item & Hi & Hh & Hv).
    destruct (IH Hrest) as (items & Hm & Hhs & Hvs).
    exists (item :: items). rewrite Hi, Hm. simpl.
    rewrite Hh, Hv, Hhs, Hvs. repeat split.
Qed.

(** The tree of a signed-in [Player] whose results can all be read. *)
Lemma player_tree ctx st :
  isAuthenticated ctx = true ->
  existsb nullish (searchResults st) = false ->
  exists tree,
    UI.Player ctx st = inr tree
    /\ handlers_of tree
       = [performSearch_h; setQuery_h Fdate; setQuery_h Fstart_time;
          setQuery_h Fend_time; setQuery_h Fcamera_id; setQuery_h Fplate]
         ++ map (fun r => loadVideo_h (videoIdOf r)) (searchResults st)
    /\ videos_of tree
       = match videoUrl st with Some url => [url] | None => [] end.
Proof.
  intros Ha Hn. unfold UI.Player. rewrite Ha. simpl negb. cbv iota.
  destruct (mapM_renders _ Hn) as (items & Hm & Hh & Hv).
  rewrite Hm. eexists. split; [reflexivity|].
  split; destruct (videoUrl st); destruct (Nat.eqb _ 0); simpl;
    rewrite ?app_nil_r, ?Hh, ?Hv; reflexivity.
Qed.

(** The handlers and media elements of a rendered signed-in [Player]. *)
Lemma player_offers_aux ctx st tree :
  isAuthenticated ctx = true ->
  UI.Player ctx st = inr tree ->
  handlers_of tree
  = [performSearch_h; setQuery_h Fdate; setQuery_h Fstart_time;
     setQuery_h Fend_time; setQuery_h Fcamera_id; setQuery_h Fplate]
    ++ map (fun r => loadVideo_h (videoIdOf r)) (searchResults st)
  /\ videos_of tree
     = match videoUrl st with Some url => [url] | None => [] end.
Proof.
  intros Ha Ht.
  destruct (existsb nullish (searchResults st)) eqn:Hn.
  - unfold UI.Player in Ht. rewrite Ha in Ht. simpl in Ht.
    rewrite (mapM_nullish _ Hn) in Ht. discriminate.
  - destruct (player_tree ctx st Ha Hn) as (tree' & Ht' & Hh & Hv).
    rewrite Ht in Ht'. injection Ht' as <-. now split.
Qed.



(** X12: when a signed-in [Player] renders, a user reaches the search
    form, the five field editors and one Load button per result, in the
    order of the result set and each bound to that result's [video_id];
    the tree holds one media element when a playback session is bound
    and none otherwise. *)
Theorem player_offers ctx st tree :
  isAuthenticated ctx = true ->
  UI.Player ctx st = inr tree ->
  handlers_of tree
  = [performSearch_h; setQuery_h Fdate; setQuery_h Fstart_time;
     setQuery_h Fend_time; setQuery_h Fcamera_id; setQuery_h Fplate]
    ++ map (fun r => loadVideo_h (videoIdOf r)) (searchResults st)
  /\ videos_of tree
     = match videoUrl st with Some url => [url] | None => [] end
  /\ showsSurface tree = true.
Proof.
  intros Ha Ht.
  destruct (player_offers_aux ctx st tree Ha Ht) as [Hh Hv].
  split; [exact Hh|]. split; [exact Hv|].
  unfold showsSurface. rewrite Hh. reflexivity.
Qed.

Lemma player_offers_witness :
  exists tree,
    UI.Player Samples.member Samples.busy.(state) = inr tree
    /\ handlers_of tree
       = [performSearch_h; setQuery_h Fdate; setQuery_h Fstart_time;
          setQuery_h Fend_time; setQuery_h Fcamera_id; setQuery_h Fplate;
          loadVideo_h (VNum 1%float)]
    /\ videos_of tree = [0]
    /\ showsSurface tree = true.
Proof.
  eexists. split; [reflexivity|].
  exact (player_offers Samples.member Samples.busy.(state) _
           eq_refl eq_refl).
Defined.

(** X13: a success payload that is an array with a [null] entry passes
    the array check of [performSearch] and makes the next render of the
    signed-in root throw. *)
Theorem null_result_breaks_render net e w res results ctx :
  net (searchUrl (query (state w))) = Some res ->
  ok res = true ->
  json res = Some (VArr results) ->
  existsb nullish results = true ->
  isAuthenticated ctx = true ->
  fst (performSearch net e w) = inr tt
  /\ alerts (trace (snd (performSearch net e w))) = alerts (trace w)
  /\ App ctx (state (snd (performSearch net e w))) = inl TypeError.
Proof.
  intros Hnet Hok Hj Hn Ha.
  rewrite (search_answered net w e res (VArr results) Hnet Hok Hj).
  cbn [fst snd state trace isArray elements].
  split; [reflexivity|]. split.
  - unfold alerts. rewrite flat_map_app.
    destruct e as [[]|]; simpl; now rewrite app_nil_r.
  - unfold App, UI.Player. rewrite Ha. simpl.
    now rewrite (mapM_nullish _ Hn).
Qed.

Lemma null_result_breaks_render_witness :
  let net := Samples.always (Samples.response true (Some (VArr [VNull]))) in
  fst (performSearch net None Samples.fresh) = inr tt
  /\ alerts (trace (snd (performSearch net None Samples.fresh)))
     = alerts (trace Samples.fresh)
  /\ App Samples.member (state (snd (performSearch net None Samples.fresh)))
     = inl TypeError.
Proof.
  exact (null_result_breaks_render
           (Samples.always (Samples.response true (Some (VArr [VNull]))))
           None Samples.fresh
           (Samples.response true (Some (VArr [VNull]))) [VNull]
           Samples.member eq_refl eq_refl eq_refl eq_refl eq_refl).
Defined.

Lemma load_handlers_not_signIn rs :
  existsb signInHandler (map (fun r => loadVideo_h (videoIdOf r)) rs)
  = false.
Proof. induction rs; simpl; auto. Qed.

(** X14: in [InnerApp] the sign-in card and the player exclude each
    other: signing out and the search/player handlers are reachable
    exactly when the user is signed in, the handlers of the sign-in card
    exactly when not. *)
Theorem innerApp_exclusive ctx st fd tree :
  InnerApp ctx st fd = inr tree ->
  (In logout_h (handlers_of tree) <-> isAuthenticated ctx = true)
  /\ existsb signInHandler (handlers_of tree)
     = negb (isAuthenticated ctx)
  /\ existsb playerHandler (handlers_of tree) = isAuthenticated ctx.
Proof.
  unfold InnerApp. destruct (isAuthenticated ctx) eqn:Ha; simpl.
  - destruct (UI.Player ctx st) as [x|ptree] eqn:Hp; [discriminate|].
    intros H. injection H as <-.
    destruct (player_offers_aux ctx st ptree Ha Hp) as [Hh _].
    simpl. rewrite app_nil_r, Hh. simpl.
    split; [split; [reflexivity | tauto]|].
    split; [|reflexivity].
    rewrite app_nil_r. apply load_handlers_not_signIn.
  - intros H. injection H as <-. simpl.
    split; [|split; reflexivity].
    split; [|discriminate]. intuition discriminate.
Qed.

Lemma innerApp_exclusive_witness :
  exists tree,
    InnerApp Samples.member Samples.busy.(state) Samples.blankForm
    = inr tree
    /\ (In logout_h (handlers_of tree)
        <-> isAuthenticated Samples.member = true)
    /\ existsb signInHandler (handlers_of tree)
       = negb (isAuthenticated Samples.member)
    /\ existsb playerHandler (handlers_of tree)
       = isAuthenticated Samples.member.
Proof.
  eexists. split; [reflexivity|].
  exact (innerApp_exclusive Samples.member Samples.busy.(state)
           Samples.blankForm _ eq_refl).
Defined.

(** X15: from the exported [App] neither signing in nor signing out can
    be reached, whoever the user is: no rendered tree of [App] holds a
    handler of the sign-in card or the sign-out handler. *)
Theorem app_offers_no_sign_in ctx st tree :
  App ctx st = inr tree ->
  ~ In logout_h (handlers_of tree)
  /\ existsb signInHandler (handlers_of tree) = false.
Proof.
  unfold App. intros Ht.
  destruct (isAuthenticated ctx) eqn:Ha.
  - destruct (player_offers_aux ctx st tree Ha Ht) as [Hh _].
    rewrite Hh. split.
    + simpl. intros H.
      repeat (destruct H as [H|H]; [discriminate|]).
      apply in_map_iff in H. destruct H as (r & Hr & _). discriminate.
    + simpl. apply load_handlers_not_signIn.
  - unfold UI.Player in Ht. rewrite Ha in Ht. simpl in Ht.
    injection Ht as <-. simpl. tauto.
Qed.

Lemma app_offers_no_sign_in_witness :
  exists tree,
    App Samples.guest initialState = inr tree
    /\ ~ In logout_h (handlers_of tree)
    /\ existsb signInHandler (handlers_of tree) = false.
Proof.
  eexists. split; [reflexivity|].
  exact (app_offers_no_sign_in Samples.guest initialState _ eq_refl).
Defined.

End Rendering.

(* ================================================================== *)
(** ** The sign-in and sign-up forms *)
(* ================================================================== *)

Section Cards.
Import Player Forms.

Lemma read_assign_same k v fd : read k (assign k v fd) = Some v.
Proof.
  induction fd as [|[k' v'] rest IH]; simpl.
  - now rewrite String.eqb_refl.
  - destruct (String.eqb k' k) eqn:E; simpl.
    + now rewrite String.eqb_refl.
    + now rewrite E.
Qed.

Lemma read_assign_other k k' v fd :
  k' <> k -> read k' (assign k v fd) = read k' fd.
Proof.
  intros Hk. induction fd as [|[k1 v1] rest IH]; simpl.
  - destruct (String.eqb_spec k k'); [congruence | reflexivity].
  - destruct (String.eqb_spec k1 k) as [->|Hne]; simpl.
    + destruct (String.eqb_spec k k'); [congruence | reflexivity].
    + now rewrite IH.
Qed.

Lemma keys_assign k v fd :
  map fst (assign k v fd)
  = match read k fd with
    | Some _ => map fst fd
    | None => map fst fd ++ [k]
    end.
Proof.
  induction fd as [|[k1 v1] rest IH]; simpl; [reflexivity|].
  destruct (String.eqb_spec k1 k) as [->|Hne]; simpl; [reflexivity|].
  rewrite IH. now destruct (read k rest).
Qed.

(** X16: [handleChange(field, value)] makes [field] read as [value],
    leaves every other field as it reads, whatever the form held, and
    shows nothing. *)
Theorem handleChange_sets_field field value card :
  let card' := snd (handleChange field value card) in
  fst (handleChange field value card) = inr tt
  /\ read field (formData card') = Some value
  /\ (forall k, k <> field ->
                read k (formData card') = read k (formData card))
  /\ shown card' = shown card.
Proof.
  simpl. split; [reflexivity|]. split; [apply read_assign_same|].
  split; [intros k Hk; now apply read_assign_other | reflexivity].
Qed.

(** X17: the sign-up card compares the two passwords typed and nothing
    else: after [p] is typed as password and [c] as its confirmation,
    a submit shows "Account Created!" when [p] and [c] are the same
    text (the empty text too) and "Passwords do not match!" otherwise;
    it shows one message, sends no request and keeps the form. *)
Theorem signUp_checks_passwords fd shown0 p c :
  (handleChange "password" p ;;
   handleChange "confirmPassword" c ;;
   SignUp.handleSubmit (Some SubmitEvent))
    {| formData := fd; shown := shown0 |}
  = (inr tt,
     {| formData := assign "confirmPassword" c (assign "password" p fd);
        shown := shown0
                 ++ [PreventDefault;
                     Alert (VStr (if String.eqb p c
                                  then "Account Created!"
                                  else "Passwords do not match!"))] |}).
Proof.
  unfold SignUp.handleSubmit, handleChange, preventDefault, getFormData,
    setFormData, Forms.emit, bind. simpl.
  rewrite read_assign_same, read_assign_other, read_assign_same
    by discriminate.
  simpl. destruct (String.eqb p c); simpl; now rewrite <- app_assoc.
Qed.

(** X18: the sign-in card only announces the e-mail typed: after an
    e-mail and a password are typed, a submit shows "Signing in as: "
    followed by that e-mail, whatever the password, sends no request and
    keeps the form. *)
Theorem signIn_announces_email fd shown0 mail pw :
  (handleChange "email" mail ;;
   handleChange "password" pw ;;
   SignIn.handleSubmit (Some SubmitEvent))
    {| formData := fd; shown := shown0 |}
  = (inr tt,
     {| formData := assign "password" pw (assign "email" mail fd);
        shown := shown0
                 ++ [PreventDefault;
                     Alert (VStr ("Signing in as: " ++ mail)%string)] |}).
Proof.
  unfold SignIn.handleSubmit, handleChange, preventDefault, getFormData,
    setFormData, Forms.emit, bind. simpl.
  rewrite read_assign_other, read_assign_same by discriminate.
  simpl. now rewrite <- app_assoc.
Qed.

(** X19: the submit handlers of both cards call [e.preventDefault()]
    unguarded, so without an event they throw a TypeError before
    anything is shown; [performSearch] guards the call and without an
    event still sends its request. *)
Theorem submit_without_event card net w :
  SignIn.handleSubmit None card = (inl TypeError, card)
  /\ SignUp.handleSubmit None card = (inl TypeError, card)
  /\ exists w' rest,
       performSearch net None w = (inr tt, w')
       /\ Player.trace w'
          = Player.trace w
            ++ Request (searchUrl (query (state w))) :: rest.
Proof.
  split; [reflexivity|]. split; [reflexivity|].
  destruct (performSearch_sends net None w) as (w' & rest & H1 & H2).
  exists w', rest. split; [exact H1 | exact H2].
Qed.

End Cards.

(* ================================================================== *)
(** ** Rows of button presses on the video player *)
(* ================================================================== *)

Section Presses.
Import VideoPlayer Controls.

Lemma press_mounted b v cmds :
  exists v' more,
    press b {| videoRef := Some v; issued := cmds |}
    = (inr tt, {| videoRef := Some v'; issued := cmds ++ more |})
    /\ src v' = src v
    /\ List.length more = (if isStop b then 2 else 1).
Proof.
  destruct b; simpl press.
  - rewrite playPause_mounted. eexists; eexists. repeat split.
  - rewrite stopVideo_resets. eexists; eexists. repeat split.
Qed.

Lemma pressAll_cons b rest w w1 :
  press b w = (inr tt, w1) ->
  pressAll (b :: rest) w = pressAll rest w1.
Proof. intros H. simpl. unfold bind. now rewrite H. Qed.

Lemma presses_keep_source_aux bs v cmds :
  exists v' more,
    pressAll bs {| videoRef := Some v; issued := cmds |}
    = (inr tt, {| videoRef := Some v'; issued := cmds ++ more |})
    /\ src v' = src v.
Proof.
  revert v cmds. induction bs as [|b rest IH]; intros v cmds.
  - exists v, []. simpl. rewrite app_nil_r. repeat split.
  - destruct (press_mounted b v cmds) as (v1 & m1 & H1 & Hs1 & _).
    rewrite (pressAll_cons b rest _ _ H1).
    destruct (IH v1 (cmds ++ m1)) as (v2 & m2 & H2 & Hs2).
    exists v2, (m1 ++ m2). rewrite H2, <- app_assoc.
    split; [reflexivity | congruence].
Qed.

(** X20: on the mounted element no row of presses throws or changes the
    bound source, and it issues one command per Play/Pause press and
    two per Stop press. *)
Theorem presses_keep_source bs v cmds :
  exists v' more,
    pressAll bs {| videoRef := Some v; issued := cmds |}
    = (inr tt, {| videoRef := Some v'; issued := cmds ++ more |})
    /\ src v' = src v
    /\ List.length more
       = List.length (filter isPlayPause bs)
         + 2 * List.length (filter isStop bs).
Proof.
  revert v cmds. induction bs as [|b rest IH]; intros v cmds.
  - exists v, []. simpl. rewrite app_nil_r. repeat split.
  - destruct (press_mounted b v cmds) as (v1 & m1 & H1 & Hs1 & Hl1).
    rewrite (pressAll_cons b rest _ _ H1).
    destruct (IH v1 (cmds ++ m1)) as (v2 & m2 & H2 & Hs2 & Hl2).
    exists v2, (m1 ++ m2). rewrite H2, <- app_assoc.
    split; [reflexivity|]. split; [congruence|].
    rewrite length_app, Hl1, Hl2. destruct b; simpl; lia.
Qed.

(** X21: before the element is mounted every non-empty row of presses
    throws a TypeError at its first press and issues no command. *)
Theorem presses_unmounted bs cmds :
  bs <> [] ->
  pressAll bs {| videoRef := None; issued := cmds |}
  = (inl TypeError, {| videoRef := None; issued := cmds |}).
Proof.
  destruct bs as [|[] rest]; [congruence| |]; reflexivity.
Qed.

Lemma presses_unmounted_witness :
  [StopButton; PlayPauseButton] <> []
  /\ pressAll [StopButton; PlayPauseButton]
       {| videoRef := None; issued := [] |}
     = (inl TypeError, {| videoRef := None; issued := [] |}).
Proof.
  split; [discriminate|].
  apply (presses_unmounted [StopButton; PlayPauseButton] []). discriminate.
Defined.

Lemma playPause_presses n v cmds :
  exists more,
    pressAll (repeat PlayPauseButton n)
      {| videoRef := Some v; issued := cmds |}
    = (inr tt,
       {| videoRef := Some {| src := src v;
                              paused := xorb (paused v) (Nat.odd n);
                              currentTime := currentTime v |};
          issued := cmds ++ more |})
    /\ List.length more = n.
Proof.
  revert v cmds. induction n as [|n IH]; intros v cmds.
  - exists []. simpl. rewrite app_nil_r, xorb_false_r.
    now destruct v.
  - change (repeat PlayPauseButton (S n))
      with (PlayPauseButton :: repeat PlayPauseButton n).
    rewrite (pressAll_cons PlayPauseButton _ _ _
               (playPause_mounted v cmds)).
    destruct (IH {| src := src v; paused := negb (paused v);
                    currentTime := currentTime v |}
                 (cmds ++ [if paused v then play else pause]))
      as (more & H & Hl).
    exists ((if paused v then play else pause) :: more).
    rewrite H. simpl src; simpl paused; simpl currentTime.
    rewrite <- app_assoc. simpl. split; [|now rewrite Hl].
    rewrite Nat.odd_succ, <- Nat.negb_odd.
    now destruct (paused v), (Nat.odd n).
Qed.

(** X22: [n] presses of Play/Pause in a row flip the paused flag when [n]
    is odd and restore it when [n] is even; they issue [n] commands and
    leave the playback position and the source alone. *)
Theorem playPause_parity n v cmds :
  exists more,
    pressAll (repeat PlayPauseButton n)
      {| videoRef := Some v; issued := cmds |}
    = (inr tt,
       {| videoRef := Some {| src := src v;
                              paused := if Nat.odd n then negb (paused v)
                                        else paused v;
                              currentTime := currentTime v |};
          issued := cmds ++ more |})
    /\ List.length more = n.
Proof.
  destruct (playPause_presses n v cmds) as (more & H & Hl).
  exists more. rewrite H. split; [|exact Hl].
  now destruct (Nat.odd n), (paused v).
Qed.

Lemma pressAll_app bs cs w w1 :
  pressAll bs w = (inr tt, w1) ->
  pressAll (bs ++ cs) w = pressAll cs w1.
Proof.
  revert w. induction bs as [|b rest IH]; intros w H.
  - simpl in H. unfold ret in H. now injection H as <-.
  - simpl in *. unfold bind in *.
    destruct (press b w) as [[e|[]] w2]; [discriminate|].
    now apply IH.
Qed.

(** X23: whatever was pressed before, after Stop the element is paused at
    position 0 with its source unchanged, and the next Play/Pause press
    issues play and starts playback from there. *)
Theorem stop_then_play bs v cmds :
  exists more,
    pressAll (bs ++ [StopButton]) {| videoRef := Some v; issued := cmds |}
    = (inr tt,
       {| videoRef := Some {| src := src v; paused := true;
                              currentTime := 0%float |};
          issued := cmds ++ more |})
    /\ pressAll (bs ++ [StopButton; PlayPauseButton])
         {| videoRef := Some v; issued := cmds |}
       = (inr tt,
          {| videoRef := Some {| src := src v; paused := false;
                                 currentTime := 0%float |};
             issued := cmds ++ more ++ [play] |}).
Proof.
  destruct (presses_keep_source_aux bs v cmds) as (v1 & m1 & H1 & Hs1).
  exists (m1 ++ [pause; set_currentTime 0%float]).
  rewrite !(pressAll_app bs _ _ _ H1). simpl pressAll. unfold bind.
  simpl press. rewrite stopVideo_resets, Hs1.
  split.
  - unfold ret. now rewrite <- app_assoc.
  - rewrite playPause_mounted. simpl. unfold ret.
    now rewrite <- !app_assoc.
Qed.

End Presses.

(* ================================================================== *)
(** ** Play/Pause on the states the player can be in *)
(* ================================================================== *)

Section SurfaceStates.
Import VideoPlayer Controls.




End SurfaceStates.
